(** * The development-time hot reloader of next.js

    A shallow embedding of [packages/next/server/dev/hot-reloader.ts]:
    the request gate ([run], [addCorsSupport], [renderScriptError],
    [ensurePage]), the attribution of compiler errors to pages
    ([findEntryModule], [erroredPages], [getCompilationErrors]), the
    compiler hooks installed by [start] (page-hash tracking, the
    [_document] watcher, the change events), the construction of the entry
    map of a pass, and [buildFallbackError].

    JavaScript values are modelled as the code uses them: [undefined] and
    [null] as [None], the truthiness tests of the source written out, a
    [Set<string>] as the list of its elements in insertion order, a
    [Map<string, string>] and plain objects used as dictionaries as
    [gmap string _], side effects on the response, the console and the
    collaborators as a trace of [Effect]s. *)

From stdpp Require Import base option list strings gmap.
From Stdlib Require Import String.

Local Open Scope string_scope.
Local Open Scope list_scope.

(** ** JavaScript strings, truthiness and sets *)

(** [!!v] for a value that is a string, [undefined] or [null]: the empty
    string is falsy like the two absent values. *)
Definition js_truthy (v : option string) : bool :=
  match v with
  | Some s => negb (String.eqb s "")
  | None => false
  end.

(** [v || null]. *)
Definition or_null (v : option string) : option string :=
  if js_truthy v then v else None.

(** [s.slice(n)] and [s.substr(n)] for a non-negative [n]. *)
Definition js_slice (n : nat) (s : string) : string :=
  substring n (String.length s - n) s.

(** [s.startsWith(p)]. *)
Definition startsWith (p s : string) : bool := String.prefix p s.

(** [a === b] on strings, [undefined] included. *)
Definition strict_eq (a b : option string) : bool := bool_decide (a = b).

(** [set.has(x)], [set.add(x)] and [new Set(iterable)] on a [Set<string>]
    kept as the list of its elements in insertion order. *)
Definition set_has (s : list string) (x : string) : bool :=
  bool_decide (x ∈ s).

Definition set_add (s : list string) (x : string) : list string :=
  if set_has s x then s else s ++ [x].

Definition new_Set (l : list string) : list string := foldl set_add [] l.

(** [map.get(k)] on a [Map] or [Object.entries]-like association list kept
    in insertion order. *)
Fixpoint assoc_get {A} (k : string) (l : list (string * A)) : option A :=
  match l with
  | [] => None
  | (k', v) :: l => if String.eqb k k' then Some v else assoc_get k l
  end.

(** ** Errors, modules and compilations *)

(** A module of the dependency graph is an object on the compiler's heap;
    [issuer] is a reference to another such object, [null] at an entry.
    References are heap addresses, so a graph with a cycle is a value of
    this type like any other. *)
Definition ModuleId := nat.

Record JsModule := {
  mod_name : option string;
  mod_issuer : option ModuleId
}.

(** What the code reads of a thrown value or of a compiler error:
    [isError(v)], [v.name], [v.code], [v.stack], [v + ''] and [v.module]. *)
Record JsValue := {
  err_isError : bool;
  err_name : string;
  err_code : option string;
  err_stack : option string;
  err_text : string;
  err_module : option ModuleId
}.

Record Chunk := {
  chunk_id : option string;
  chunk_hash : option string
}.

(** [webpack5.Compilation], the fields the hot reloader reads. *)
Record Compilation := {
  comp_errors : list JsValue;
  comp_modules : ModuleId → JsModule;
  comp_namedChunks : list (string * Chunk);
  comp_entrypoints : list (string * list Chunk)
}.

(** [webpack5.Stats]: [hasErrors()] is the compiler's own answer. *)
Record Stats := {
  compilation : Compilation;
  hasErrors : bool
}.

(** ** Effects and completions *)

(** What [HotReloader.send] hands to [webpackHotMiddleware.publish]. *)
Inductive Payload :=
| PAction (action : string) (data : list (option string))
| PObject (event : string) (pages : option (list string)).

Inductive SendArg :=
| SString (action : string)
| SObject (event : string) (pages : option (list string)).

Inductive Effect :=
| SetHeader (name value : string)
| SetStatusCode (statusCode : nat)
| WriteHead (statusCode : nat)
| ResEnd (body : option string)
| ConsoleError (stack : option string)
| ConsoleWarn (message : string)
| OnDemandEnsurePage (page : string) (clientOnly : bool)
| CallMiddleware (index : nat)
| Publish (payload : Payload).

(** How a call or an awaited promise completes. [Pending] is a promise
    that is never settled. *)
Inductive Completion (A : Type) :=
| Resolved (a : A)
| Rejected (reason : JsValue)
| Pending.
Arguments Resolved {A} a.
Arguments Rejected {A} reason.
Arguments Pending {A}.

(** An effectful computation: the effects it performed, in order, and
    how it completed. *)
Definition Async (A : Type) : Type := list Effect * Completion A.

Definition ret {A} (a : A) : Async A := ([], Resolved a).

Definition throw {A} (reason : JsValue) : Async A := ([], Rejected reason).

Definition emit (e : Effect) : Async unit := ([e], Resolved tt).

Definition bind {A B} (m : Async A) (f : A → Async B) : Async B :=
  match m with
  | (t, Resolved a) => let '(t', c) := f a in (t ++ t', c)
  | (t, Rejected r) => (t, Rejected r)
  | (t, Pending) => (t, Pending)
  end.

(** [try { m } catch (error) { h error }]. *)
Definition try_catch {A} (m : Async A) (h : JsValue → Async A) : Async A :=
  match m with
  | (t, Rejected r) => let '(t', c) := h r in (t ++ t', c)
  | other => other
  end.

Notation "'let*' x ':=' m 'in' k" := (bind m (fun x => k))
  (at level 10, x pattern, m at level 200, k at level 200, only parsing).
Notation "m ;; k" := (bind m (fun _ => k))
  (at level 100, k at level 200, right associativity).

(** A synchronous call that may throw, lifted. *)
Definition lift {A} (c : Completion A) : Async A := ([], c).

(** ** Collaborators

    Code of the repository that the hot reloader imports, and the
    JavaScript engine: the route patterns and the blocked pages of
    [lib/constants], the path helpers, the file system and the engine's
    call-stack budget. *)
Class Collaborators := {
  (** [url.match(API_ROUTE)] and [page.match(MIDDLEWARE_ROUTE)], as booleans. *)
  API_ROUTE : string → bool;
  MIDDLEWARE_ROUTE : string → bool;
  BLOCKED_PAGES : list string;
  (** [matchNextPageBundleRequest(pathname)]: the [path] parameter. *)
  matchNextPageBundleRequest : option string → option (list string);
  (** [decodeURIComponent]; [None] when it throws. *)
  decodeURIComponent : string → option string;
  denormalizePagePath : string → string;
  normalizePathSep : string → string;
  getRouteFromEntrypoint : string → option string;
  fileExists : string → bool;
  isFlightPage : string → bool;
  path_relative : string → string → string;
  isAbsolute : string → bool;
  (** The [stack] of a freshly constructed [Error]. *)
  engine_stack : string → string → option string;
  (** The number of nested calls the engine allows before it throws a
      [RangeError]. *)
  stack_limit : nat
}.

Section HotReloader.
Context `{Collaborators}.

(** [new Error(message)], [new DecodeError(message)] and the engine's
    [RangeError]. *)
Definition new_Error (name message : string) : JsValue :=
  {| err_isError := true;
     err_name := name;
     err_code := None;
     err_stack := engine_stack name message;
     err_text := name +:+ ": " +:+ message;
     err_module := None |}.

Definition DecodeError (message : string) : JsValue :=
  new_Error "DecodeError" message.

Definition RangeError : JsValue :=
  new_Error "RangeError" "Maximum call stack size exceeded".

(** ** renderScriptError and addCorsSupport *)

Definition renderScriptError (error : JsValue) (verbose : bool) : Async unit :=
  emit (SetHeader "Cache-Control" "no-cache, no-store, max-age=0, must-revalidate") ;;
  if strict_eq (err_code error) (Some "ENOENT") then
    emit (SetStatusCode 404) ;;
    emit (ResEnd (Some "404 - Not Found"))
  else
    (if verbose then emit (ConsoleError (err_stack error)) else ret tt) ;;
    emit (SetStatusCode 500) ;;
    emit (ResEnd (Some "500 - Internal Error")).

(** [IncomingMessage], the fields read. *)
Record Request := {
  req_url : string;
  req_method : option string;
  req_origin : option string;
  req_access_control_request_headers : option string
}.

Definition addCorsSupport (req : Request) : Async bool :=
  let isApiRoute := API_ROUTE (req_url req) in
  if isApiRoute then ret false
  else if negb (js_truthy (req_origin req)) then ret false
  else
    emit (SetHeader "Access-Control-Allow-Origin" (default "" (req_origin req))) ;;
    emit (SetHeader "Access-Control-Allow-Methods" "OPTIONS, GET") ;;
    (if js_truthy (req_access_control_request_headers req) then
       emit (SetHeader "Access-Control-Allow-Headers"
               (default "" (req_access_control_request_headers req)))
     else ret tt) ;;
    if strict_eq (req_method req) (Some "OPTIONS") then
      emit (WriteHead 200) ;;
      emit (ResEnd None) ;;
      ret true
    else ret false.

(** ** Attribution of compiler errors to pages *)

(** [findEntryModule]: the recursion of the source, one engine stack
    frame per call. [budget] is the number of frames left; with none left
    the engine throws its [RangeError]. *)
Fixpoint findEntryModule (budget : nat) (modules : ModuleId → JsModule)
    (issuer : ModuleId) : Completion ModuleId :=
  match budget with
  | 0 => Rejected RangeError
  | S budget =>
      match mod_issuer (modules issuer) with
      | Some parent => findEntryModule budget modules parent
      | None => Resolved issuer
      end
  end.

(** The part of a turn of the loop of [erroredPages] that reads one
    error: the page the error belongs to, [None] at each [continue]. *)
Definition error_page (c : Compilation) (error : JsValue) : Completion (option string) :=
  match err_module error with
  | None => Resolved None
  | Some m =>
      match findEntryModule stack_limit (comp_modules c) m with
      | Resolved entryModule =>
          let name := mod_name (comp_modules c entryModule) in
          if negb (js_truthy name) then Resolved None
          else
            let enhancedName := getRouteFromEntrypoint (default "" name) in
            if negb (js_truthy enhancedName) then Resolved None
            else Resolved enhancedName
      | Rejected r => Rejected r
      | Pending => Pending
      end
  end.

(** One turn of the loop: the error is pushed on the list of its page,
    created empty when the page has none. *)
Definition erroredPages_step (c : Compilation)
    (failedPages : gmap string (list JsValue)) (error : JsValue)
    : Completion (gmap string (list JsValue)) :=
  match error_page c error with
  | Resolved (Some enhancedName) =>
      Resolved (<[enhancedName := default [] (failedPages !! enhancedName) ++ [error]]>
                  failedPages)
  | Resolved None => Resolved failedPages
  | Rejected r => Rejected r
  | Pending => Pending
  end.

Fixpoint erroredPages_loop (c : Compilation) (errors : list JsValue)
    (failedPages : gmap string (list JsValue))
    : Completion (gmap string (list JsValue)) :=
  match errors with
  | [] => Resolved failedPages
  | error :: errors =>
      match erroredPages_step c failedPages error with
      | Resolved failedPages => erroredPages_loop c errors failedPages
      | other => other
      end
  end.

Definition erroredPages (c : Compilation) : Completion (gmap string (list JsValue)) :=
  erroredPages_loop c (comp_errors c) ∅.


(** ** The hot reloader's state *)

(** [this.onDemandEntries], once [start] has run: how the promise of its
    [ensurePage(page, clientOnly)] completes. *)
Record OnDemandEntries := {
  ode_ensurePage : string → bool → Completion unit
}.

(** A connect-style middleware [fn(req, res, next)], by what it does with
    [next]: [Resolved] for [next()], [Rejected err] for [next(err)],
    [Pending] when it never calls it. *)
Definition Middleware := Request → Completion unit.

(** The fields of the class that [run], [ensurePage],
    [getCompilationErrors] and the compiler hooks read or assign;
    [fallbackWatcher] is kept with [buildFallbackError] below. *)
Record HotReloader := {
  middlewares : list Middleware;
  webServerRuntime : bool;
  hasServerComponents : bool;
  clientStats : option Stats;
  serverStats : option Stats;
  clientError : option JsValue;
  serverError : option JsValue;
  serverPrevDocumentHash : option string;
  prevChunkNames : option (list string);
  onDemandEntries : option OnDemandEntries
}.

(** ** getCompilationErrors *)

(** The body shared by the [clientStats] and the [serverStats] branch:
    the errors of the requested page when [erroredPages] attributes some
    to it, the compilation's own list otherwise. *)
Definition errors_of_target (stats : Stats) (normalizedPage : string)
    : Completion (list JsValue) :=
  match erroredPages (compilation stats) with
  | Resolved failedPages =>
      match failedPages !! normalizedPage with
      | Some (e :: es) => Resolved (e :: es)
      | _ => Resolved (comp_errors (compilation stats))
      end
  | Rejected r => Rejected r
  | Pending => Pending
  end.

(** [stats?.hasErrors()]. *)
Definition stats_hasErrors (stats : option Stats) : bool :=
  match stats with
  | Some s => hasErrors s
  | None => false
  end.

Definition getCompilationErrors (this : HotReloader) (page : string)
    : Completion (list JsValue) :=
  let normalizedPage := normalizePathSep page in
  match clientError this, serverError this with
  | Some e, _ => Resolved [e]
  | None, Some e => Resolved [e]
  | None, None =>
      if stats_hasErrors (clientStats this) then
        match clientStats this with
        | Some stats => errors_of_target stats normalizedPage
        | None => Resolved []
        end
      else if stats_hasErrors (serverStats this) then
        match serverStats this with
        | Some stats => errors_of_target stats normalizedPage
        | None => Resolved []
        end
      else Resolved []
  end.

(** ** ensurePage *)

(** [BLOCKED_PAGES.indexOf(page) !== -1]. *)
Definition is_blocked (page : string) : bool :=
  bool_decide (page ∈ BLOCKED_PAGES).

(** [ensurePage] past its guard: the recorded compiler failure rejects
    the call, otherwise the on-demand entry handler takes over. *)
Definition ensurePage_unblocked (this : HotReloader) (page : string) (clientOnly : bool)
    : Async unit :=
  let error :=
    if clientOnly then clientError this
    else match serverError this with
         | Some e => Some e
         | None => clientError this
         end in
  match error with
  | Some e => throw e
  | None =>
      match onDemandEntries this with
      | Some ode =>
          emit (OnDemandEnsurePage page clientOnly) ;;
          lift (ode_ensurePage ode page clientOnly)
      | None => ret tt
      end
  end.

Definition ensurePage (this : HotReloader) (page : string) (clientOnly : bool)
    : Async unit :=
  if negb (String.eqb page "/_error") && is_blocked page then ret tt
  else ensurePage_unblocked this page clientOnly.

(** ** The request gate *)

(** [params.path.map((param) => decodeURIComponent(param))]; [None] when
    one of the calls throws. *)
Fixpoint decode_params (path : list string) : option (list string) :=
  match path with
  | [] => Some []
  | param :: path =>
      match decodeURIComponent param, decode_params path with
      | Some d, Some ds => Some (d :: ds)
      | _, _ => None
      end
  end.

(** [isError(error) ? error : new Error(error + '')]. *)
Definition as_error (error : JsValue) : JsValue :=
  if err_isError error then error else new_Error "Error" (err_text error).

(** The block guarded by [page === '/_error' || BLOCKED_PAGES.indexOf(page) === -1]:
    [true] when it returns [{ finished: true }], [false] when control
    leaves it for the final [return {}]. *)
Definition ensure_and_check (this : HotReloader) (page : string) : Async bool :=
  let* built :=
    try_catch
      (ensurePage this page true ;; ret true)
      (fun error =>
         renderScriptError (as_error error) true ;;
         ret false) in
  if negb built then ret true
  else
    let* errors := lift (getCompilationErrors this page) in
    match errors with
    | error :: _ =>
        renderScriptError error false ;;
        ret true
    | [] => ret false
    end.

(** [handlePageBundleRequest]; the result is [true] for [{ finished: true }]
    and [false] for [{}]. *)
Definition handlePageBundleRequest (this : HotReloader) (pathname : option string)
    : Async bool :=
  match matchNextPageBundleRequest pathname with
  | None => ret false
  | Some path =>
      match decode_params path with
      | None => throw (DecodeError "failed to decode param")
      | Some decoded =>
          let decodedPagePath := "/" +:+ String.concat "/" decoded in
          let page := denormalizePagePath decodedPagePath in
          if String.eqb page "/_error" || negb (is_blocked page) then
            ensure_and_check this page
          else ret false
      end
  end.

(** The loop over [this.middlewares]. *)
Fixpoint run_middlewares (fns : list Middleware) (index : nat) (req : Request)
    : Async unit :=
  match fns with
  | [] => ret tt
  | fn :: fns =>
      emit (CallMiddleware index) ;;
      lift (fn req) ;;
      run_middlewares fns (S index) req
  end.

(** [run] past the preflight test. *)
Definition run_after_cors (this : HotReloader) (req : Request) (pathname : option string)
    : Async bool :=
  let* finished := handlePageBundleRequest this pathname in
  run_middlewares (middlewares this) 0 req ;;
  ret finished.

(** [run(req, res, parsedUrl)], [pathname] being [parsedUrl.pathname]; the
    result is [true] for [{ finished: true }] and [false] for a result
    without the flag. *)
Definition run (this : HotReloader) (req : Request) (pathname : option string)
    : Async bool :=
  let* preflight := addCorsSupport req in
  if preflight then ret false
  else run_after_cors this req pathname.

(** ** The hooks installed by start *)

(** [HotReloader.send(action, ...args)]. *)
Definition send (action : SendArg) (args : list (option string)) : Effect :=
  Publish
    match action with
    | SObject event pages => PObject event pages
    | SString a => PAction a args
    end.

(** [pageHashMap.set(key, hash)] as [pageHashMap.get] sees it: a key set
    to [undefined] reads like a key that was never set. *)
Definition map_set (key : string) (hash : option string)
    (pageHashMap : gmap string string) : gmap string string :=
  match hash with
  | Some h => <[key := h]> pageHashMap
  | None => delete key pageHashMap
  end.

(** The callback of [entry.chunks.forEach] in [trackPageChanges]; the
    state is the pair of [pageHashMap] and [changedItems]. *)
Definition track_chunk (key : string)
    (st : gmap string string * list string) (chunk : Chunk)
    : gmap string string * list string :=
  let '(pageHashMap, changedItems) := st in
  if strict_eq (chunk_id chunk) (Some key) then
    let prevHash := pageHashMap !! key in
    let changedItems :=
      if js_truthy prevHash && negb (strict_eq prevHash (chunk_hash chunk))
      then set_add changedItems key
      else changedItems in
    (map_set key (chunk_hash chunk) pageHashMap, changedItems)
  else st.

(** The callback of [stats.entrypoints.forEach]. *)
Definition track_entry (st : gmap string string * list string)
    (entry : string * list Chunk) : gmap string string * list string :=
  let '(key, chunks) := entry in
  if startsWith "pages/" key then foldl (track_chunk key) st chunks else st.

Definition trackPageChanges (pageHashMap : gmap string string)
    (changedItems : list string) (stats : Compilation)
    : gmap string string * list string :=
  foldl track_entry (pageHashMap, changedItems) (comp_entrypoints stats).

(** The four collections that [start] closes over. *)
Record Tracker := {
  changedClientPages : list string;
  changedServerPages : list string;
  prevClientPageHashes : gmap string string;
  prevServerPageHashes : gmap string string
}.

(** [compilers[0].hooks.emit] and [compilers[1].hooks.emit]. *)
Definition client_emit (tr : Tracker) (stats : Compilation) : Tracker :=
  let '(hashes, changed) :=
    trackPageChanges (prevClientPageHashes tr) (changedClientPages tr) stats in
  {| changedClientPages := changed;
     changedServerPages := changedServerPages tr;
     prevClientPageHashes := hashes;
     prevServerPageHashes := prevServerPageHashes tr |}.

Definition server_emit (tr : Tracker) (stats : Compilation) : Tracker :=
  let '(hashes, changed) :=
    trackPageChanges (prevServerPageHashes tr) (changedServerPages tr) stats in
  {| changedClientPages := changedClientPages tr;
     changedServerPages := changed;
     prevClientPageHashes := prevClientPageHashes tr;
     prevServerPageHashes := hashes |}.

(** The assignments to the server-side and to the client-side fields. *)
Definition with_server (this : HotReloader) (error : option JsValue)
    (stats : option Stats) (documentHash : option string) : HotReloader :=
  {| middlewares := middlewares this;
     webServerRuntime := webServerRuntime this;
     hasServerComponents := hasServerComponents this;
     clientStats := clientStats this;
     serverStats := stats;
     clientError := clientError this;
     serverError := error;
     serverPrevDocumentHash := documentHash;
     prevChunkNames := prevChunkNames this;
     onDemandEntries := onDemandEntries this |}.

Definition with_client (this : HotReloader) (error : option JsValue)
    (stats : option Stats) (chunkNames : option (list string)) : HotReloader :=
  {| middlewares := middlewares this;
     webServerRuntime := webServerRuntime this;
     hasServerComponents := hasServerComponents this;
     clientStats := stats;
     serverStats := serverStats this;
     clientError := error;
     serverError := serverError this;
     serverPrevDocumentHash := serverPrevDocumentHash this;
     prevChunkNames := chunkNames;
     onDemandEntries := onDemandEntries this |}.

(** [compilers[1].hooks.failed] and [compilers[1].hooks.done]. *)
Definition server_failed (this : HotReloader) (err : JsValue) : HotReloader :=
  with_server this (Some err) None (serverPrevDocumentHash this).

Definition server_done (this : HotReloader) (stats : Stats)
    : HotReloader * list Effect :=
  let this := with_server this None (Some stats) (serverPrevDocumentHash this) in
  match assoc_get "pages/_document" (comp_namedChunks (compilation stats)) with
  | None => (this, [ConsoleWarn "_document.js chunk not found"])
  | Some documentChunk =>
      match serverPrevDocumentHash this with
      | None =>
          (with_server this None (Some stats) (or_null (chunk_hash documentChunk)), [])
      | Some prev =>
          if strict_eq (chunk_hash documentChunk) (Some prev) then (this, [])
          else
            (with_server this None (Some stats) (or_null (chunk_hash documentChunk)),
             [send (SString "reloadPage") []])
      end
  end.

(** Modelled from the spec: [difference] of [build/utils], which is not
    among the sources; the spec has it as
    [serverOnlyChanges = serverChangedPages − clientChangedPages]: the
    elements of [main], in order, that are not elements of [sub]. *)
Definition difference (main sub : list string) : list string :=
  List.filter (fun x => negb (set_has (new_Set sub) x)) (new_Set main).

(** [multiCompiler.hooks.done]. *)
Definition multi_done (tr : Tracker) : Tracker * list Effect :=
  let serverOnlyChanges :=
    difference (changedServerPages tr) (changedClientPages tr) in
  let middlewareChanges :=
    List.filter (fun name => MIDDLEWARE_ROUTE name) (changedClientPages tr) in
  ({| changedClientPages := [];
      changedServerPages := [];
      prevClientPageHashes := prevClientPageHashes tr;
      prevServerPageHashes := prevServerPageHashes tr |},
   (if Nat.ltb 0 (List.length middlewareChanges)
    then [send (SObject "middlewareChanges" None) []] else [])
   ++
   (if Nat.ltb 0 (List.length serverOnlyChanges)
    then [send (SObject "serverOnlyChanges"
                  (Some (map (fun pg => denormalizePagePath (js_slice (String.length "pages") pg))
                           serverOnlyChanges))) []]
    else [])).

(** [diff] at the end of the file. *)
Definition diff (a b : list string) : list string :=
  new_Set (List.filter (fun v => negb (set_has b v)) a).

(** [compilers[0].hooks.failed] and [compilers[0].hooks.done]. *)
Definition client_failed (this : HotReloader) (err : JsValue) : HotReloader :=
  with_client this (Some err) None (prevChunkNames this).

Definition chunkNames_of (c : Compilation) : list string :=
  new_Set
    (List.filter (fun name => js_truthy (getRouteFromEntrypoint name))
       (map fst (comp_namedChunks c))).

Definition client_done (this : HotReloader) (stats : Stats)
    : HotReloader * list Effect :=
  let chunkNames := chunkNames_of (compilation stats) in
  let events :=
    match prevChunkNames this with
    | Some prev =>
        let addedPages := diff chunkNames prev in
        let removedPages := diff prev chunkNames in
        map (fun addedPage =>
               send (SString "addedPage") [getRouteFromEntrypoint addedPage])
          addedPages
        ++
        map (fun removedPage =>
               send (SString "removedPage") [getRouteFromEntrypoint removedPage])
          removedPages
    | None => []
    end in
  (with_client this None (Some stats) (Some chunkNames), events).


(** ** The entry map of a pass *)

(** The statuses of an entry of the on-demand registry; the hot reloader
    assigns [BUILDING]. *)
Inductive EntryStatus := ADDED | BUILDING | BUILT.

(** A value of the [entries] registry of [on-demand-entry-handler]. *)
Record EntryData := {
  bundlePath : string;
  absolutePagePath : string;
  dispose : bool;
  status : EntryStatus
}.

(** The [value] handed to [finalizeEntrypoint], by the loader request it
    spells out. *)
Inductive EntryRequest :=
| NextMiddlewareLoader (page absolutePagePath : string)
| NextClientPagesLoader (page absolutePagePath : string)
| NextMiddlewareSSRLoader (page absolutePagePath : string) (isServerComponent : bool)
| ModuleRequest (request : string).

(** The argument of [finalizeEntrypoint]. *)
Record EntryPoint := {
  ep_name : string;
  ep_value : EntryRequest;
  ep_isServer : bool;
  ep_isMiddleware : bool;
  ep_isServerWeb : bool
}.

Record WebpackConfig := {
  cfg_name : option string;
  cfg_context : string
}.

(** What the [entry] function of a configuration works on: the shared
    [entries] registry, the [entrypoints] object it returns and the
    [ssrEntries] map of the middleware plugin. *)
Record PassState := {
  entries : gmap string EntryData;
  entrypoints : gmap string EntryPoint;
  ssrEntries : gmap string bool
}.

(** [entry.status = status]. *)
Definition with_status (entry : EntryData) (status : EntryStatus) : EntryData :=
  {| bundlePath := bundlePath entry;
     absolutePagePath := absolutePagePath entry;
     dispose := dispose entry;
     status := status |}.

(** [page === '/_app' || page === '/_error' || page === '/_document']. *)
Definition is_special_page (page : string) : bool :=
  String.eqb page "/_app" || String.eqb page "/_error" || String.eqb page "/_document".

(** The [async (pageKey) => ...] callback. Callbacks of different keys
    touch different entries of the registry, so their interleaving is the
    run of one after the other in some order. *)
Definition inject_entry (this : HotReloader) (config : WebpackConfig)
    (st : PassState) (pageKey : string) : PassState :=
  let isClientCompilation := strict_eq (cfg_name config) (Some "client") in
  let isServerCompilation := strict_eq (cfg_name config) (Some "server") in
  let isServerWebCompilation := strict_eq (cfg_name config) (Some "server-web") in
  let isClientKey := startsWith "client" pageKey in
  if negb (Bool.eqb isClientKey isClientCompilation) then st
  else
    let page :=
      js_slice (if isClientKey then String.length "client" else String.length "server")
        pageKey in
    let isMiddleware := MIDDLEWARE_ROUTE page in
    if isClientCompilation && API_ROUTE page && negb isMiddleware then st
    else
      let isApiRoute := API_ROUTE page in
      if negb isClientCompilation && isMiddleware then st
      else
        match entries st !! pageKey with
        | None => st
        | Some entry =>
            let pageExists := negb (dispose entry) && fileExists (absolutePagePath entry) in
            if negb pageExists then
              {| entries := delete pageKey (entries st);
                 entrypoints := entrypoints st;
                 ssrEntries := ssrEntries st |}
            else
              let isServerComponent :=
                hasServerComponents this && isFlightPage (absolutePagePath entry) in
              if isServerCompilation && webServerRuntime this && negb isApiRoute then st
              else
                let entries' := <[pageKey := with_status entry BUILDING]> (entries st) in
                if isClientCompilation && isMiddleware then
                  {| entries := entries';
                     entrypoints :=
                       <[bundlePath entry :=
                           {| ep_name := bundlePath entry;
                              ep_value := NextMiddlewareLoader page (absolutePagePath entry);
                              ep_isServer := false;
                              ep_isMiddleware := true;
                              ep_isServerWeb := false |}]> (entrypoints st);
                     ssrEntries := ssrEntries st |}
                else if isClientCompilation then
                  {| entries := entries';
                     entrypoints :=
                       <[bundlePath entry :=
                           {| ep_name := bundlePath entry;
                              ep_value := NextClientPagesLoader page (absolutePagePath entry);
                              ep_isServer := false;
                              ep_isMiddleware := false;
                              ep_isServerWeb := false |}]> (entrypoints st);
                     ssrEntries :=
                       if isServerComponent then
                         <[bundlePath entry := true]> (ssrEntries st)
                       else if webServerRuntime this && negb (is_special_page page) then
                         <[bundlePath entry := false]> (ssrEntries st)
                       else ssrEntries st |}
                else if isServerWebCompilation then
                  {| entries := entries';
                     entrypoints :=
                       if negb (is_special_page page) then
                         <[bundlePath entry :=
                             {| ep_name := "[name].js";
                                ep_value :=
                                  NextMiddlewareSSRLoader page (absolutePagePath entry)
                                    isServerComponent;
                                ep_isServer := false;
                                ep_isMiddleware := false;
                                ep_isServerWeb := true |}]> (entrypoints st)
                       else entrypoints st;
                     ssrEntries := ssrEntries st |}
                else
                  let request := path_relative (cfg_context config) (absolutePagePath entry) in
                  let request :=
                    if negb (isAbsolute request) && negb (startsWith "../" request)
                    then "./" +:+ request else request in
                  {| entries := entries';
                     entrypoints :=
                       <[bundlePath entry :=
                           {| ep_name := bundlePath entry;
                              ep_value := ModuleRequest request;
                              ep_isServer := true;
                              ep_isMiddleware := false;
                              ep_isServerWeb := false |}]> (entrypoints st);
                     ssrEntries := ssrEntries st |}
        end.

(** [Promise.all(Object.keys(entries).map(...))], the keys taken in the
    order [keys]. *)
Definition inject_entries (this : HotReloader) (config : WebpackConfig)
    (keys : list string) (st : PassState) : PassState :=
  foldl (inject_entry this config) st keys.

(** [config.entry]: [defaultEntrypoints] is what [defaultEntry] returned. *)
Definition config_entry (this : HotReloader) (config : WebpackConfig)
    (registry : gmap string EntryData) (ssr : gmap string bool)
    (defaultEntrypoints : gmap string EntryPoint) : PassState :=
  inject_entries this config (map fst (map_to_list registry))
    {| entries := registry; entrypoints := defaultEntrypoints; ssrEntries := ssr |}.

End HotReloader.

(** ** buildFallbackError

    An [async] method runs up to its next [await] and resumes when the
    awaited promise settles; other calls may start in between. The state
    is [this.fallbackWatcher], the stage of every call made so far, and
    counters of the collaborators' work: configurations requested from
    [getBaseWebpackConfig], compilers constructed by [webpack(...)] and
    started by [watch]. *)
Inductive CallStage :=
| AwaitingConfig
| AwaitingFirstBuild
| Returned.

Record FallbackState := {
  fallbackWatcher : bool;
  calls : list CallStage;
  configsRequested : nat;
  compilersStarted : nat
}.

Inductive FallbackEvent :=
| CallBuildFallbackError
| ConfigResolved (call : nat)
| WatchCallback (call : nat).

Definition fallback_initial : FallbackState :=
  {| fallbackWatcher := false; calls := []; configsRequested := 0; compilersStarted := 0 |}.

Definition fallback_step (st : FallbackState) (ev : FallbackEvent) : FallbackState :=
  match ev with
  | CallBuildFallbackError =>
      if fallbackWatcher st then
        {| fallbackWatcher := fallbackWatcher st;
           calls := calls st ++ [Returned];
           configsRequested := configsRequested st;
           compilersStarted := compilersStarted st |}
      else
        {| fallbackWatcher := fallbackWatcher st;
           calls := calls st ++ [AwaitingConfig];
           configsRequested := S (configsRequested st);
           compilersStarted := compilersStarted st |}
  | ConfigResolved i =>
      match calls st !! i with
      | Some AwaitingConfig =>
          {| fallbackWatcher := fallbackWatcher st;
             calls := <[i := AwaitingFirstBuild]> (calls st);
             configsRequested := configsRequested st;
             compilersStarted := S (compilersStarted st) |}
      | _ => st
      end
  | WatchCallback i =>
      match calls st !! i with
      | Some AwaitingFirstBuild =>
          {| fallbackWatcher := true;
             calls := <[i := Returned]> (calls st);
             configsRequested := configsRequested st;
             compilersStarted := compilersStarted st |}
      | _ => st
      end
  end.

Definition fallback_run (st : FallbackState) (evs : list FallbackEvent) : FallbackState :=
  foldl fallback_step st evs.

(** [await this.buildFallbackError()] with nothing else running in
    between: the call, and the two resumptions of that same call. *)
Definition awaited_call (st : FallbackState) : list FallbackEvent :=
  let i := List.length (calls st) in
  [CallBuildFallbackError; ConfigResolved i; WatchCallback i].

Fixpoint awaited_calls (n : nat) (st : FallbackState) : FallbackState :=
  match n with
  | 0 => st
  | S n => awaited_calls n (fallback_run st (awaited_call st))
  end.


(** ** The constructor, the configurations of a pass and stop *)

(** The constructor, by the two experimental flags it reads:
    [!!config.experimental.concurrentFeatures] and
    [!!config.experimental.serverComponents]. *)
Definition new_HotReloader (concurrentFeatures serverComponents : bool) : HotReloader :=
  {| middlewares := [];
     webServerRuntime := concurrentFeatures;
     hasServerComponents := concurrentFeatures && serverComponents;
     clientStats := None;
     serverStats := None;
     clientError := None;
     serverError := None;
     serverPrevDocumentHash := None;
     prevChunkNames := None;
     onDemandEntries := None |}.

(** The list that [getWebpackConfig] resolves to: the three results of
    [getBaseWebpackConfig], the third only with the web server runtime
    ([.filter(Boolean)] drops the [null]). *)
Definition getWebpackConfig (this : HotReloader)
    (client server serverWeb : WebpackConfig) : list WebpackConfig :=
  [client; server] ++ (if webServerRuntime this then [serverWeb] else []).

(** What [stop] does to a watcher. *)
Inductive StopEffect := WatcherClose.

Section Pass.
Context `{Collaborators}.

(** The [entry] functions of the configurations of a pass, called one
    after the other: each works on the shared [entries] registry and the
    shared [ssrEntries], and on the entrypoints that its own
    [defaultEntry] returned. The result is the registry and [ssrEntries]
    at the end and the entrypoints of each configuration. *)
Fixpoint run_entry_functions (this : HotReloader)
    (configs : list (WebpackConfig * gmap string EntryPoint))
    (registry : gmap string EntryData) (ssr : gmap string bool)
    : gmap string EntryData * gmap string bool * list (gmap string EntryPoint) :=
  match configs with
  | [] => (registry, ssr, [])
  | (config, defaultEntrypoints) :: configs =>
      let st := config_entry this config registry ssr defaultEntrypoints in
      let '(registry', ssr', results) :=
        run_entry_functions this configs (entries st) (ssrEntries st) in
      (registry', ssr', entrypoints st :: results)
  end.

(** The [TypeError]s of a call on a value that has no such method. *)
Definition TypeError (message : string) : JsValue := new_Error "TypeError" message.

(** [stop]: [watcher] is [this.watcher], [None] while [start] has not
    assigned it, and otherwise how the callback of its [close] is called:
    without an error, with one, or never. [this.fallbackWatcher] is the
    field that [buildFallbackError] assigns: it holds [true], which has no
    [close]. *)
Definition stop (watcher : option (Completion unit)) (fallback : FallbackState)
    : list StopEffect * Completion unit :=
  match watcher with
  | None =>
      ([], Rejected (TypeError "Cannot read properties of undefined (reading 'close')"))
  | Some (Resolved _) =>
      if fallbackWatcher fallback then
        ([WatcherClose], Rejected (TypeError "this.fallbackWatcher.close is not a function"))
      else ([WatcherClose], Resolved tt)
  | Some (Rejected err) => ([WatcherClose], Rejected err)
  | Some Pending => ([WatcherClose], Pending)
  end.

End Pass.
(** * Derived notions used to state the properties *)

(** The response effects of a trace: what the client of the request sees. *)
Definition is_response_write (e : Effect) : bool :=
  match e with
  | SetHeader _ _ | SetStatusCode _ | WriteHead _ | ResEnd _ => true
  | _ => false
  end.

Definition response_writes (t : list Effect) : list Effect :=
  List.filter is_response_write t.

(** The plaintext error response: caching disabled, then 404 for a
    missing file and 500 for anything else. *)
Definition error_response (error : JsValue) : list Effect :=
  [ SetHeader "Cache-Control" "no-cache, no-store, max-age=0, must-revalidate";
    SetStatusCode (if strict_eq (err_code error) (Some "ENOENT") then 404 else 500);
    ResEnd (Some (if strict_eq (err_code error) (Some "ENOENT")
                  then "404 - Not Found" else "500 - Internal Error")) ].

(** The cross-origin headers of a request with an [Origin] header. *)
Definition cors_headers (req : Request) : list Effect :=
  [ SetHeader "Access-Control-Allow-Origin" (default "" (req_origin req));
    SetHeader "Access-Control-Allow-Methods" "OPTIONS, GET" ]
  ++ (if js_truthy (req_access_control_request_headers req)
      then [SetHeader "Access-Control-Allow-Headers"
              (default "" (req_access_control_request_headers req))]
      else []).

(** The [pages/_document] chunk of a pass, when it has one. *)
Definition document_chunk (stats : Stats) : option Chunk :=
  assoc_get "pages/_document" (comp_namedChunks (compilation stats)).

(** The server target over a sequence of completed passes. *)
Definition server_run (this : HotReloader) (passes : list Stats) : HotReloader :=
  foldl (fun this stats => (server_done this stats).1) this passes.

(** The document hash on record after a sequence of passes: that of the
    last pass that had the chunk, nothing when it had no hash. *)
Fixpoint recorded_hash (init : option string) (passes : list Stats) : option string :=
  match passes with
  | [] => init
  | stats :: passes =>
      recorded_hash
        match document_chunk stats with
        | Some documentChunk => or_null (chunk_hash documentChunk)
        | None => init
        end
        passes
  end.

(** The hashes a pass offers to [trackPageChanges]: for every entrypoint
    whose key starts with [pages/], the hash of each of its chunks whose
    id is that key, in the order of the two loops. *)
Definition page_hashes (stats : Compilation) : list (string * option string) :=
  flat_map
    (fun entry : string * list Chunk =>
       if startsWith "pages/" entry.1 then
         map (fun chunk => (entry.1, chunk_hash chunk))
           (List.filter (fun chunk => strict_eq (chunk_id chunk) (Some entry.1)) entry.2)
       else [])
    (comp_entrypoints stats).

(** One recorded hash: the state is [pageHashMap] and [changedItems]. *)
Definition record_hash (st : gmap string string * list string)
    (kh : string * option string) : gmap string string * list string :=
  (map_set kh.1 kh.2 st.1,
   if js_truthy (st.1 !! kh.1) && negb (strict_eq (st.1 !! kh.1) kh.2)
   then set_add st.2 kh.1 else st.2).

(** A chain of issuer links: [issuer_chain modules m d root] when [d]
    links lead from [m] to [root], which has no issuer. *)
Inductive issuer_chain (modules : ModuleId → JsModule)
    : ModuleId → nat → ModuleId → Prop :=
| chain_root m :
    mod_issuer (modules m) = None → issuer_chain modules m 0 m
| chain_link m parent d root :
    mod_issuer (modules m) = Some parent →
    issuer_chain modules parent d root →
    issuer_chain modules m (S d) root.

Section DerivedNotions.
Context `{Collaborators}.

(** Whether [erroredPages] files [error] under [page]. *)
Definition attributed_to (c : Compilation) (page : string) (error : JsValue) : bool :=
  match error_page c error with
  | Resolved (Some p) => String.eqb p page
  | _ => false
  end.

(** The errors of a compilation attributed to [page], in order. *)
Definition attributed (c : Compilation) (page : string) : list JsValue :=
  List.filter (attributed_to c page) (comp_errors c).

(** The walk from the module of every error of [c] ends at a root within
    the engine's call-stack budget. *)
Definition attribution_resolves (c : Compilation) : Prop :=
  ∀ error m, error ∈ comp_errors c → err_module error = Some m →
    ∃ d root, issuer_chain (comp_modules c) m d root ∧ (d < stack_limit)%nat.

(** The answer for one target: the errors attributed to the page when
    there are some, the target's whole list otherwise. *)
Definition target_errors (stats : Stats) (normalizedPage : string) : list JsValue :=
  match attributed (compilation stats) normalizedPage with
  | [] => comp_errors (compilation stats)
  | errors => errors
  end.

(** Whether the [entry] function of [config] reaches the existence test
    for [pageKey]: the key is of the configuration's side, and it is
    neither an API route on the client side nor a middleware on the
    server side. *)
Definition reaches_existence_test (config : WebpackConfig) (pageKey : string) : bool :=
  let isClientCompilation := strict_eq (cfg_name config) (Some "client") in
  let isClientKey := startsWith "client" pageKey in
  let page := js_slice 6 pageKey in
  Bool.eqb isClientKey isClientCompilation
  && negb (isClientCompilation && API_ROUTE page && negb (MIDDLEWARE_ROUTE page))
  && negb (negb isClientCompilation && MIDDLEWARE_ROUTE page).

(** Whether the server configuration leaves [pageKey] to the web server
    runtime's own configuration. *)
Definition left_to_server_web (this : HotReloader) (config : WebpackConfig)
    (pageKey : string) : bool :=
  strict_eq (cfg_name config) (Some "server")
  && webServerRuntime this
  && negb (API_ROUTE (js_slice 6 pageKey)).

(** Whether a built entry gets an entrypoint of its own: always, but for
    [/_app], [/_error] and [/_document] in the [server-web] configuration. *)
Definition gets_entrypoint (config : WebpackConfig) (pageKey : string) : bool :=
  negb (negb (strict_eq (cfg_name config) (Some "client"))
        && strict_eq (cfg_name config) (Some "server-web")
        && is_special_page (js_slice 6 pageKey)).

(** What the [entry] function of [config] makes of the registry's value
    at [pageKey]: [None] when it deletes the key. *)
Definition entry_fate (this : HotReloader) (config : WebpackConfig)
    (pageKey : string) (entry : EntryData) : option EntryData :=
  if reaches_existence_test config pageKey then
    if dispose entry || negb (fileExists (absolutePagePath entry)) then None
    else if left_to_server_web this config pageKey then Some entry
    else Some (with_status entry BUILDING)
  else Some entry.

End DerivedNotions.

(** * Fixtures

    A fixture for the collaborators: the API and middleware route
    patterns, the blocked pages of [shared/lib/constants], a page-bundle
    route with one path segment, and a file system in which the files
    under [/deleted/] are gone. [limit] is the engine's stack budget. *)
Definition endsWith (suffix s : string) : bool :=
  String.eqb (js_slice (String.length s - String.length suffix) s) suffix.

Definition fixture (limit : nat) : Collaborators :=
  {| API_ROUTE := fun s => String.eqb s "/api" || startsWith "/api/" s;
     MIDDLEWARE_ROUTE := fun s => endsWith "_middleware" s;
     BLOCKED_PAGES := ["/_document"; "/_app"; "/_error"];
     matchNextPageBundleRequest := fun pathname =>
       match pathname with
       | Some p =>
           if startsWith "/_next/static/chunks/pages/" p && endsWith ".js" p
           then Some [substring 27 (String.length p - 30) p]
           else None
       | None => None
       end;
     decodeURIComponent := fun s => if String.eqb s "%" then None else Some s;
     denormalizePagePath := fun p => if String.eqb p "/index" then "/" else p;
     normalizePathSep := fun p => p;
     getRouteFromEntrypoint := fun name =>
       if startsWith "pages/" name then Some (js_slice 5 name) else None;
     fileExists := fun p => negb (startsWith "/deleted/" p);
     isFlightPage := fun _ => false;
     path_relative := fun _ p => p;
     isAbsolute := fun p => startsWith "/" p;
     engine_stack := fun _ _ => None;
     stack_limit := limit |}.

(** A reloader before [start]: nothing recorded, no on-demand handler. *)
Definition fresh : HotReloader :=
  {| middlewares := [];
     webServerRuntime := false;
     hasServerComponents := false;
     clientStats := None;
     serverStats := None;
     clientError := None;
     serverError := None;
     serverPrevDocumentHash := None;
     prevChunkNames := None;
     onDemandEntries := None |}.

Definition file_missing : JsValue :=
  {| err_isError := true;
     err_name := "Error";
     err_code := Some "ENOENT";
     err_stack := None;
     err_text := "Error: page not found";
     err_module := None |}.

(** A reloader whose client compiler failed on a missing file. *)
Definition client_failed_missing : HotReloader := client_failed fresh file_missing.

(** A chain of two issuer links: a module of [/about] imported by a
    component imported by the page's entry module. *)
Definition about_modules : ModuleId → JsModule :=
  fun m =>
    match m with
    | 0 => {| mod_name := None; mod_issuer := Some 1 |}
    | 1 => {| mod_name := None; mod_issuer := Some 2 |}
    | _ => {| mod_name := Some "pages/about"; mod_issuer := None |}
    end.

(** ** Passes over the page [/about] *)

Definition page_chunk (name hash : string) : Chunk :=
  {| chunk_id := Some name; chunk_hash := Some hash |}.

(** A pass with the runtime chunk only, and a pass that also has the page
    [/about] with the given hash. *)
Definition pass_without_pages : Stats :=
  {| compilation :=
       {| comp_errors := [];
          comp_modules := about_modules;
          comp_namedChunks := [("main", page_chunk "main" "m0")];
          comp_entrypoints := [("main", [page_chunk "main" "m0"])] |};
     hasErrors := false |}.

Definition pass_with_about (hash : string) : Stats :=
  {| compilation :=
       {| comp_errors := [];
          comp_modules := about_modules;
          comp_namedChunks :=
            [("main", page_chunk "main" "m0"); ("pages/about", page_chunk "pages/about" hash)];
          comp_entrypoints :=
            [("main", [page_chunk "main" "m0"]);
             ("pages/about", [page_chunk "pages/about" hash])] |};
     hasErrors := false |}.

Definition tracker_initial : Tracker :=
  {| changedClientPages := [];
     changedServerPages := [];
     prevClientPageHashes := ∅;
     prevServerPageHashes := ∅ |}.

(** One pass as the client target sees it: the [emit] hook, the [done]
    hook, then the [done] hook of the multi-compiler. *)
Definition client_pass (limit : nat) (st : HotReloader * Tracker) (stats : Stats)
    : HotReloader * Tracker :=
  ((@client_done (fixture limit) st.1 stats).1,
   (@multi_done (fixture limit) (client_emit st.2 (compilation stats))).1).

(** ** Errors of two pages *)

(** Module [0] is the entry module of [/a], module [1] that of [/b]. *)
Definition two_page_modules : ModuleId → JsModule :=
  fun m =>
    match m with
    | 0 => {| mod_name := Some "pages/a"; mod_issuer := None |}
    | _ => {| mod_name := Some "pages/b"; mod_issuer := None |}
    end.

Definition compile_error (text : string) (m : ModuleId) : JsValue :=
  {| err_isError := true;
     err_name := "ModuleBuildError";
     err_code := None;
     err_stack := None;
     err_text := text;
     err_module := Some m |}.

Definition failing_stats (error : JsValue) : Stats :=
  {| compilation :=
       {| comp_errors := [error];
          comp_modules := two_page_modules;
          comp_namedChunks := [];
          comp_entrypoints := [] |};
     hasErrors := true |}.

(** The client bundle of [/b] and the server bundle of [/a] fail. *)
Definition client_b_server_a : HotReloader :=
  {| middlewares := [];
     webServerRuntime := false;
     hasServerComponents := false;
     clientStats := Some (failing_stats (compile_error "client error in /b" 1));
     serverStats := Some (failing_stats (compile_error "server error in /a" 0));
     clientError := None;
     serverError := None;
     serverPrevDocumentHash := None;
     prevChunkNames := None;
     onDemandEntries := None |}.

(** ** Malformed issuer chains *)

(** Two modules that name each other as issuer. *)
Definition cyclic_modules : ModuleId → JsModule :=
  fun m =>
    match m with
    | 0 => {| mod_name := Some "pages/a"; mod_issuer := Some 1 |}
    | _ => {| mod_name := Some "pages/a"; mod_issuer := Some 0 |}
    end.

(** A chain of [d] links from module [0] to module [d]. *)
Definition deep_modules (d : nat) : ModuleId → JsModule :=
  fun m =>
    {| mod_name := Some "pages/a";
       mod_issuer := if Nat.ltb m d then Some (S m) else None |}.

Definition cyclic_compilation : Compilation :=
  {| comp_errors := [compile_error "error in a cycle" 0];
     comp_modules := cyclic_modules;
     comp_namedChunks := [];
     comp_entrypoints := [] |}.

(** ** Registries *)

Definition registry_entry (bundle path : string) : EntryData :=
  {| bundlePath := bundle; absolutePagePath := path; dispose := false; status := ADDED |}.

Definition configuration (name : string) : WebpackConfig :=
  {| cfg_name := Some name; cfg_context := "/app" |}.

Definition with_web_server_runtime : HotReloader :=
  {| middlewares := [];
     webServerRuntime := true;
     hasServerComponents := false;
     clientStats := None;
     serverStats := None;
     clientError := None;
     serverError := None;
     serverPrevDocumentHash := None;
     prevChunkNames := None;
     onDemandEntries := None |}.


(** ** Requests, document chunks and change sets *)

(** A preflight request from another origin. *)
Definition preflight_request : Request :=
  {| req_url := "/_next/static/chunks/pages/about.js";
     req_method := Some "OPTIONS";
     req_origin := Some "http://localhost:4000";
     req_access_control_request_headers := Some "content-type" |}.

(** A server pass whose [pages/_document] chunk has the given hash. *)
Definition document_pass (hash : string) : Stats :=
  {| compilation :=
       {| comp_errors := [];
          comp_modules := about_modules;
          comp_namedChunks := [("pages/_document", page_chunk "pages/_document" hash)];
          comp_entrypoints := [("pages/_document", [page_chunk "pages/_document" hash])] |};
     hasErrors := false |}.

(** [/a] and [/b] changed on the server, [/b] on the client too. *)
Definition changes_a_b : Tracker :=
  {| changedClientPages := ["pages/b"];
     changedServerPages := ["pages/a"; "pages/b"];
     prevClientPageHashes := ∅;
     prevServerPageHashes := ∅ |}.

(** A reloader on which [start] has completed: the on-demand entry
    handler is in place and builds every page it is asked for. *)
Definition started : HotReloader :=
  {| middlewares := [];
     webServerRuntime := false;
     hasServerComponents := false;
     clientStats := None;
     serverStats := None;
     clientError := None;
     serverError := None;
     serverPrevDocumentHash := None;
     prevChunkNames := None;
     onDemandEntries := Some {| ode_ensurePage := fun _ _ => Resolved tt |} |}.

(** A compiler failure that is not a missing file. *)
Definition compiler_crash : JsValue :=
  {| err_isError := true;
     err_name := "Error";
     err_code := None;
     err_stack := Some "Error: compiler crashed";
     err_text := "Error: compiler crashed";
     err_module := None |}.
(** * Properties *)

(** ** Sets as insertion-ordered lists *)

Lemma elem_of_List_filter {A} (f : A → bool) (l : list A) (x : A) :
  x ∈ List.filter f l ↔ x ∈ l ∧ f x = true.
Proof. rewrite !list_elem_of_In. apply filter_In. Qed.

Lemma set_has_true (s : list string) (x : string) : set_has s x = true ↔ x ∈ s.
Proof. unfold set_has. apply bool_decide_eq_true. Qed.

Lemma set_has_false (s : list string) (x : string) : set_has s x = false ↔ x ∉ s.
Proof. unfold set_has. apply bool_decide_eq_false. Qed.

Lemma elem_of_set_add (s : list string) (x y : string) :
  y ∈ set_add s x ↔ y ∈ s ∨ y = x.
Proof.
  unfold set_add. destruct (set_has s x) eqn:E.
  - apply set_has_true in E. split; [auto | intros [?| ->]; auto].
  - rewrite elem_of_app, list_elem_of_singleton. tauto.
Qed.

Lemma elem_of_foldl_set_add (l acc : list string) (y : string) :
  y ∈ foldl set_add acc l ↔ y ∈ acc ∨ y ∈ l.
Proof.
  revert acc. induction l as [|x l IH]; intros acc; simpl.
  - rewrite elem_of_nil. tauto.
  - rewrite IH, elem_of_set_add, elem_of_cons. tauto.
Qed.

Lemma elem_of_new_Set (l : list string) (y : string) : y ∈ new_Set l ↔ y ∈ l.
Proof.
  unfold new_Set. rewrite elem_of_foldl_set_add, elem_of_nil. tauto.
Qed.

Lemma NoDup_set_add (s : list string) (x : string) : NoDup s → NoDup (set_add s x).
Proof.
  intros Hs. unfold set_add. destruct (set_has s x) eqn:E; [done|].
  apply set_has_false in E. apply NoDup_app. split_and!; [done | | apply NoDup_singleton].
  intros y Hy ->%list_elem_of_singleton. done.
Qed.

Lemma NoDup_foldl_set_add (l acc : list string) :
  NoDup acc → NoDup (foldl set_add acc l).
Proof.
  revert acc. induction l as [|x l IH]; intros acc Hacc; simpl; [done|].
  apply IH, NoDup_set_add, Hacc.
Qed.

Lemma NoDup_new_Set (l : list string) : NoDup (new_Set l).
Proof. apply NoDup_foldl_set_add, NoDup_nil_2. Qed.

(** A list without repetition is the set it denotes: [new Set] copies it. *)
Lemma foldl_set_add_NoDup (l acc : list string) :
  NoDup (acc ++ l) → foldl set_add acc l = acc ++ l.
Proof.
  revert acc. induction l as [|x l IH]; intros acc Hnd; simpl.
  - by rewrite app_nil_r.
  - assert (x ∉ acc) as Hx.
    { apply NoDup_app in Hnd as (_ & Hd & _). intros Hin.
      apply (Hd x Hin). left. }
    unfold set_add at 2. apply set_has_false in Hx. rewrite Hx.
    rewrite IH; rewrite <- app_assoc; done.
Qed.

Lemma new_Set_NoDup (l : list string) : NoDup l → new_Set l = l.
Proof. intros Hl. unfold new_Set. by rewrite foldl_set_add_NoDup. Qed.

Lemma elem_of_difference_list (main sub : list string) (x : string) :
  x ∈ difference main sub ↔ x ∈ main ∧ x ∉ sub.
Proof.
  unfold difference. rewrite elem_of_List_filter, elem_of_new_Set.
  rewrite negb_true_iff, set_has_false, elem_of_new_Set. done.
Qed.

Lemma elem_of_diff (a b : list string) (x : string) :
  x ∈ diff a b ↔ x ∈ a ∧ x ∉ b.
Proof.
  unfold diff. rewrite elem_of_new_Set, elem_of_List_filter.
  rewrite negb_true_iff, set_has_false. done.
Qed.

Section HotReloaderProperties.
Context `{Collaborators}.

(** ** C1: server-only changes *)

(** The events of [multiCompiler.hooks.done], by the two change sets. *)
Lemma multi_done_events (tr : Tracker) :
  (multi_done tr).2 =
    (if Nat.ltb 0 (List.length
                     (List.filter (fun name => MIDDLEWARE_ROUTE name) (changedClientPages tr)))
     then [Publish (PObject "middlewareChanges" None)] else [])
    ++
    match difference (changedServerPages tr) (changedClientPages tr) with
    | [] => []
    | pg :: pgs =>
        [Publish (PObject "serverOnlyChanges"
           (Some (map (fun pg => denormalizePagePath (js_slice 5 pg)) (pg :: pgs))))]
    end.
Proof.
  unfold multi_done. simpl.
  destruct (difference (changedServerPages tr) (changedClientPages tr)); reflexivity.
Qed.

(** C1. For arbitrary change sets of a pass, the [serverOnlyChanges]
    computed by the [done] hook of the multi-compiler are exactly the
    changed server pages that are not changed client pages: a subset of
    [changedServerPages], disjoint from [changedClientPages]; and a
    [{event: 'serverOnlyChanges', pages}] event is published exactly when
    that set is not empty, with the denormalized page of each of its
    elements as [pages]. *)
Theorem serverOnlyChanges_is_difference (tr : Tracker) :
  (∀ pg, pg ∈ difference (changedServerPages tr) (changedClientPages tr)
         ↔ pg ∈ changedServerPages tr ∧ pg ∉ changedClientPages tr)
  ∧ difference (changedServerPages tr) (changedClientPages tr) ⊆ changedServerPages tr
  ∧ (∀ pg, pg ∈ difference (changedServerPages tr) (changedClientPages tr) →
           pg ∉ changedClientPages tr)
  ∧ (∀ pages, Publish (PObject "serverOnlyChanges" pages) ∈ (multi_done tr).2
              ↔ difference (changedServerPages tr) (changedClientPages tr) ≠ []
                ∧ pages = Some (map (fun pg => denormalizePagePath (js_slice 5 pg))
                                  (difference (changedServerPages tr) (changedClientPages tr)))).
Proof.
  split_and!.
  - intros pg. apply elem_of_difference_list.
  - intros pg Hpg. by apply elem_of_difference_list in Hpg as [? _].
  - intros pg Hpg. by apply elem_of_difference_list in Hpg as [_ ?].
  - intros pages. rewrite multi_done_events.
    destruct (difference (changedServerPages tr) (changedClientPages tr)) as [|pg pgs] eqn:E.
    + rewrite app_nil_r. split; [|intros [? _]; done].
      destruct (Nat.ltb _ _).
      * intros Hin%list_elem_of_singleton. discriminate.
      * intros Hin. by apply elem_of_nil in Hin.
    + rewrite elem_of_app, list_elem_of_singleton. split.
      * intros [Hin | Heq].
        -- destruct (Nat.ltb _ _).
           ++ apply list_elem_of_singleton in Hin. discriminate.
           ++ by apply elem_of_nil in Hin.
        -- injection Heq as ->. done.
      * intros [_ ->]. right. reflexivity.
Qed.


(** ** C3: the document watcher *)

Lemma or_null_idemp (v : option string) : or_null (or_null v) = or_null v.
Proof. unfold or_null. destruct (js_truthy v) eqn:E; [by rewrite E | done]. Qed.

Lemma strict_eq_true (a b : option string) : strict_eq a b = true ↔ a = b.
Proof. unfold strict_eq. apply bool_decide_eq_true. Qed.

Lemma strict_eq_false (a b : option string) : strict_eq a b = false ↔ a ≠ b.
Proof. unfold strict_eq. apply bool_decide_eq_false. Qed.

(** What [server_done] leaves on record. *)
Lemma server_done_recorded (this : HotReloader) (stats : Stats) :
  or_null (serverPrevDocumentHash this) = serverPrevDocumentHash this →
  serverPrevDocumentHash (server_done this stats).1 =
    match document_chunk stats with
    | Some documentChunk => or_null (chunk_hash documentChunk)
    | None => serverPrevDocumentHash this
    end.
Proof.
  intros Hinv. unfold server_done, document_chunk. simpl.
  destruct (assoc_get _ _) as [documentChunk|]; [|done].
  destruct (serverPrevDocumentHash this) as [prev|] eqn:Eprev; [|done].
  destruct (strict_eq _ _) eqn:E; [|done].
  apply strict_eq_true in E. simpl. rewrite ?Eprev, E. by symmetry.
Qed.

Lemma server_run_recorded (passes : list Stats) (this : HotReloader) :
  or_null (serverPrevDocumentHash this) = serverPrevDocumentHash this →
  serverPrevDocumentHash (server_run this passes)
  = recorded_hash (serverPrevDocumentHash this) passes.
Proof.
  revert this. induction passes as [|stats passes IH]; intros this Hinv; [done|].
  unfold server_run in *. simpl.
  rewrite IH; rewrite server_done_recorded by done; [done|].
  destruct (document_chunk stats); [apply or_null_idemp | done].
Qed.

(** C3. On a completed pass of the server target that has a
    [pages/_document] chunk: when no hash is on record (the first pass to
    see the chunk) the hash is recorded and nothing is published; when a
    hash is on record, [reloadPage] is published if and only if the
    chunk's hash differs from it, an equal hash publishes nothing and
    leaves the record, a different one publishes exactly [reloadPage] and
    is recorded. A pass without the chunk only warns. *)
Theorem reloadPage_iff_document_hash_differs (this : HotReloader) (stats : Stats) :
  (document_chunk stats = None →
     (server_done this stats).2 = [ConsoleWarn "_document.js chunk not found"]
     ∧ serverPrevDocumentHash (server_done this stats).1 = serverPrevDocumentHash this)
  ∧ (∀ documentChunk, document_chunk stats = Some documentChunk →
       (serverPrevDocumentHash this = None →
          (server_done this stats).2 = []
          ∧ serverPrevDocumentHash (server_done this stats).1
            = or_null (chunk_hash documentChunk))
       ∧ (∀ prev, serverPrevDocumentHash this = Some prev →
            (Publish (PAction "reloadPage" []) ∈ (server_done this stats).2
               ↔ chunk_hash documentChunk ≠ Some prev)
            ∧ (chunk_hash documentChunk = Some prev →
                 (server_done this stats).2 = []
                 ∧ serverPrevDocumentHash (server_done this stats).1 = Some prev)
            ∧ (chunk_hash documentChunk ≠ Some prev →
                 (server_done this stats).2 = [Publish (PAction "reloadPage" [])]
                 ∧ serverPrevDocumentHash (server_done this stats).1
                   = or_null (chunk_hash documentChunk)))).
Proof.
  unfold document_chunk, server_done. simpl. split.
  - intros ->. done.
  - intros documentChunk ->. split.
    + intros ->. done.
    + intros prev ->.
      destruct (strict_eq (chunk_hash documentChunk) (Some prev)) eqn:E.
      * apply strict_eq_true in E. simpl. split_and!.
        -- split; [intros Hin; by apply elem_of_nil in Hin | done].
        -- done.
        -- done.
      * apply strict_eq_false in E. simpl. split_and!.
        -- split; [done | intros _; apply list_elem_of_singleton; done].
        -- done.
        -- done.
Qed.

(** The same over a run of passes from a reloader with nothing on record:
    [reloadPage] is published by a pass exactly when an earlier pass left
    a hash on record and the chunk's hash now differs from it. *)
Corollary reloadPage_after_passes (this : HotReloader) (passes : list Stats)
    (stats : Stats) (documentChunk : Chunk) :
  serverPrevDocumentHash this = None →
  document_chunk stats = Some documentChunk →
  Publish (PAction "reloadPage" []) ∈ (server_done (server_run this passes) stats).2
  ↔ ∃ prev, recorded_hash None passes = Some prev ∧ chunk_hash documentChunk ≠ Some prev.
Proof.
  intros Hinit Hdoc.
  pose proof (server_run_recorded passes this) as Hrec.
  rewrite Hinit in Hrec. specialize (Hrec eq_refl).
  unfold document_chunk in Hdoc. unfold server_done. cbn [serverPrevDocumentHash with_server].
  rewrite Hdoc, Hrec.
  destruct (recorded_hash None passes) as [prev|] eqn:E.
  - destruct (strict_eq (chunk_hash documentChunk) (Some prev)) eqn:Es; cbn [snd].
    + apply strict_eq_true in Es. split.
      * intros Hin. by apply elem_of_nil in Hin.
      * intros (p & [= <-] & ?). done.
    + apply strict_eq_false in Es. split.
      * intros _. by exists prev.
      * intros _. apply list_elem_of_singleton. reflexivity.
  - cbn [snd]. split.
    + intros Hin. by apply elem_of_nil in Hin.
    + intros (p & ? & _). done.
Qed.

(** ** C4: the error response of the request gate *)

Lemma renderScriptError_resolves (error : JsValue) (verbose : bool) :
  (renderScriptError error verbose).2 = Resolved tt.
Proof.
  unfold renderScriptError. destruct (strict_eq _ _), verbose; reflexivity.
Qed.

Lemma renderScriptError_writes (error : JsValue) (verbose : bool) :
  response_writes (renderScriptError error verbose).1 = error_response error.
Proof.
  unfold renderScriptError, error_response.
  destruct (strict_eq _ _), verbose; reflexivity.
Qed.

Lemma ensurePage_no_writes (this : HotReloader) (page : string) (clientOnly : bool) :
  response_writes (ensurePage this page clientOnly).1 = [].
Proof.
  unfold ensurePage, ensurePage_unblocked.
  destruct (negb _ && _); [reflexivity|].
  destruct clientOnly, (serverError this), (clientError this), (onDemandEntries this) as [ode|];
    try reflexivity; simpl; by destruct (ode_ensurePage ode page _).
Qed.

Lemma response_writes_app (t t' : list Effect) :
  response_writes (t ++ t') = response_writes t ++ response_writes t'.
Proof. apply List.filter_app. Qed.

(** The guarded block, by how its two calls complete. *)
Lemma ensure_and_check_cases (this : HotReloader) (page : string) :
  ensure_and_check this page =
    match ensurePage this page true with
    | (t, Rejected error) =>
        (t ++ (renderScriptError (as_error error) true).1, Resolved true)
    | (t, Resolved _) =>
        match getCompilationErrors this page with
        | Resolved (error :: _) => (t ++ (renderScriptError error false).1, Resolved true)
        | Resolved [] => (t, Resolved false)
        | Rejected r => (t, Rejected r)
        | Pending => (t, Pending)
        end
    | (t, Pending) => (t, Pending)
    end.
Proof.
  unfold ensure_and_check.
  destruct (ensurePage this page true) as [t [[]|error|]]; simpl.
  - destruct (getCompilationErrors this page) as [[|error errors]|r|]; simpl;
      rewrite ?app_nil_r; try reflexivity.
    pose proof (renderScriptError_resolves error false) as Hr.
    destruct (renderScriptError error false) as [t' c]. simpl in *. subst c.
    by rewrite app_nil_r.
  - pose proof (renderScriptError_resolves (as_error error) true) as Hr.
    destruct (renderScriptError (as_error error) true) as [t' c]. simpl in *. subst c.
    simpl. by rewrite !app_nil_r.
  - reflexivity.
Qed.

(** The gate on a request that matched the page-bundle route and whose
    path decoded. *)
Lemma handlePageBundleRequest_decoded (this : HotReloader) (pathname : option string)
    (path decoded : list string) :
  matchNextPageBundleRequest pathname = Some path →
  decode_params path = Some decoded →
  handlePageBundleRequest this pathname =
    let page := denormalizePagePath ("/" +:+ String.concat "/" decoded) in
    if String.eqb page "/_error" || negb (is_blocked page)
    then ensure_and_check this page
    else ret false.
Proof. intros Hm Hd. unfold handlePageBundleRequest. by rewrite Hm, Hd. Qed.



(** ** C6: cross-origin requests *)

Lemma addCorsSupport_cases (req : Request) :
  addCorsSupport req =
    if API_ROUTE (req_url req) then ([], Resolved false)
    else if negb (js_truthy (req_origin req)) then ([], Resolved false)
    else if strict_eq (req_method req) (Some "OPTIONS")
         then (cors_headers req ++ [WriteHead 200; ResEnd None], Resolved true)
         else (cors_headers req, Resolved false).
Proof.
  unfold addCorsSupport, cors_headers.
  destruct (API_ROUTE _); [reflexivity|].
  destruct (js_truthy (req_origin req)); [|reflexivity]. simpl.
  destruct (js_truthy (req_access_control_request_headers req)),
    (strict_eq (req_method req) (Some "OPTIONS")); reflexivity.
Qed.

Lemma bind_trace {A B} (t : list Effect) (a : A) (f : A → Async B) :
  bind (t, Resolved a) f = (t ++ (f a).1, (f a).2).
Proof. simpl. by destruct (f a). Qed.

(** C6. A request with a (non-empty) [Origin] header whose URL is not an
    API route gets the cross-origin headers first: a preflight ([OPTIONS])
    is answered at once with status 200 and no body, and nothing else
    happens, whatever the reloader's state and the requested path; any
    other method goes on to the page-bundle gate and the middlewares after
    the headers. A request without [Origin] and a request for an API route
    get no cross-origin header and are never short-circuited. *)
Theorem cors_before_any_processing (this : HotReloader) (req : Request)
    (pathname : option string) :
  (API_ROUTE (req_url req) = false →
   js_truthy (req_origin req) = true →
     (req_method req = Some "OPTIONS" →
        run this req pathname
        = (cors_headers req ++ [WriteHead 200; ResEnd None], Resolved false))
     ∧ (req_method req ≠ Some "OPTIONS" →
          run this req pathname
          = (cors_headers req ++ (run_after_cors this req pathname).1,
             (run_after_cors this req pathname).2)))
  ∧ (API_ROUTE (req_url req) = true ∨ js_truthy (req_origin req) = false →
       run this req pathname = run_after_cors this req pathname).
Proof.
  unfold run. rewrite addCorsSupport_cases. split.
  - intros Ha Ho. rewrite Ha, Ho. cbn [negb]. split.
    + intros Hm. apply strict_eq_true in Hm. rewrite Hm.
      rewrite bind_trace. cbn [fst snd ret]. by rewrite app_nil_r.
    + intros Hm%strict_eq_false. rewrite Hm. by rewrite bind_trace.
  - intros [Ha | Ho].
    + rewrite Ha, bind_trace. cbn [fst snd app].
      by destruct (run_after_cors this req pathname).
    + destruct (API_ROUTE _); rewrite ?Ho; cbn [negb]; rewrite bind_trace;
        cbn [fst snd app]; by destruct (run_after_cors this req pathname).
Qed.

(** ** C10: /_error and the blocked pages *)

Lemma is_blocked_true (page : string) : is_blocked page = true ↔ page ∈ BLOCKED_PAGES.
Proof. unfold is_blocked. apply bool_decide_eq_true. Qed.

Lemma eqb_error_page_false (page : string) :
  page ≠ "/_error" → String.eqb page "/_error" = false.
Proof. intros Hne. by apply String.eqb_neq. Qed.

Lemma ensurePage_error_page (this : HotReloader) (clientOnly : bool) :
  ensurePage this "/_error" clientOnly =
    match (if clientOnly then clientError this
           else match serverError this with
                | Some e => Some e
                | None => clientError this
                end) with
    | Some error => ([], Rejected error)
    | None =>
        match onDemandEntries this with
        | Some ode =>
            ([OnDemandEnsurePage "/_error" clientOnly], ode_ensurePage ode "/_error" clientOnly)
        | None => ([], Resolved tt)
        end
    end.
Proof.
  unfold ensurePage, ensurePage_unblocked. cbn [String.eqb Ascii.eqb Bool.eqb negb andb].
  destruct clientOnly, (clientError this), (serverError this), (onDemandEntries this) as [ode|];
    try reflexivity; simpl; by destruct (ode_ensurePage ode "/_error" _).
Qed.

(** C10. With [/_error] among the blocked pages: for every other blocked
    page [ensurePage] returns at once, without rejecting and without a
    call to the on-demand entry handler, and the gate answers [{}] without
    calling [ensurePage] or looking at the compilation errors. For
    [/_error], blocked as it is, [ensurePage] rejects with the recorded
    compiler failure and otherwise calls the on-demand entry handler for
    [/_error], completing as that call does; the gate answers a recorded
    client failure with its error response and otherwise calls the
    on-demand entry handler for [/_error] with [clientOnly = true],
    answers its rejection with the error response, and once it resolves
    goes on to the compilation errors of [/_error]: the first one is
    answered with its error response, none gives [{}]. *)
Theorem error_page_exempt_from_blocking (this : HotReloader) :
  "/_error" ∈ BLOCKED_PAGES →
  is_blocked "/_error" = true
  ∧ (∀ page clientOnly, page ∈ BLOCKED_PAGES → page ≠ "/_error" →
     ensurePage this page clientOnly = ([], Resolved tt))
  ∧ (∀ pathname path decoded,
       matchNextPageBundleRequest pathname = Some path →
       decode_params path = Some decoded →
       denormalizePagePath ("/" +:+ String.concat "/" decoded) ∈ BLOCKED_PAGES →
       denormalizePagePath ("/" +:+ String.concat "/" decoded) ≠ "/_error" →
       handlePageBundleRequest this pathname = ([], Resolved false))
  ∧ (∀ error, clientError this = Some error →
       ensurePage this "/_error" true = ([], Rejected error))
  ∧ (∀ error, serverError this = Some error →
       ensurePage this "/_error" false = ([], Rejected error))
  ∧ (∀ error, serverError this = None → clientError this = Some error →
       ensurePage this "/_error" false = ([], Rejected error))
  ∧ (∀ ode clientOnly,
       clientError this = None →
       (clientOnly = false → serverError this = None) →
       onDemandEntries this = Some ode →
       ensurePage this "/_error" clientOnly
       = ([OnDemandEnsurePage "/_error" clientOnly], ode_ensurePage ode "/_error" clientOnly))
  ∧ (∀ clientOnly,
       clientError this = None →
       (clientOnly = false → serverError this = None) →
       onDemandEntries this = None →
       ensurePage this "/_error" clientOnly = ([], Resolved tt))
  ∧ (∀ pathname path decoded,
       matchNextPageBundleRequest pathname = Some path →
       decode_params path = Some decoded →
       denormalizePagePath ("/" +:+ String.concat "/" decoded) = "/_error" →
       (∀ error, clientError this = Some error →
          handlePageBundleRequest this pathname
          = ((renderScriptError (as_error error) true).1, Resolved true))
       ∧ (∀ ode, clientError this = None → onDemandEntries this = Some ode →
            handlePageBundleRequest this pathname =
              match ode_ensurePage ode "/_error" true with
              | Rejected error =>
                  (OnDemandEnsurePage "/_error" true
                     :: (renderScriptError (as_error error) true).1,
                   Resolved true)
              | Resolved _ =>
                  match getCompilationErrors this "/_error" with
                  | Resolved (error :: _) =>
                      (OnDemandEnsurePage "/_error" true :: (renderScriptError error false).1,
                       Resolved true)
                  | Resolved [] => ([OnDemandEnsurePage "/_error" true], Resolved false)
                  | Rejected r => ([OnDemandEnsurePage "/_error" true], Rejected r)
                  | Pending => ([OnDemandEnsurePage "/_error" true], Pending)
                  end
              | Pending => ([OnDemandEnsurePage "/_error" true], Pending)
              end)
       ∧ (clientError this = None → onDemandEntries this = None →
            handlePageBundleRequest this pathname =
              match getCompilationErrors this "/_error" with
              | Resolved (error :: _) => ((renderScriptError error false).1, Resolved true)
              | Resolved [] => ([], Resolved false)
              | Rejected r => ([], Rejected r)
              | Pending => ([], Pending)
              end)).
Proof.
  intros Hin. split_and!.
  - by apply is_blocked_true.
  - intros page clientOnly Hb%is_blocked_true Hne%eqb_error_page_false.
    unfold ensurePage. by rewrite Hne, Hb.
  - intros pathname path decoded Hm Hd Hb%is_blocked_true Hne%eqb_error_page_false.
    rewrite (handlePageBundleRequest_decoded _ _ path decoded) by done.
    simpl. by rewrite Hne, Hb.
  - intros error Hc. by rewrite ensurePage_error_page, Hc.
  - intros error Hs. by rewrite ensurePage_error_page, Hs.
  - intros error Hs Hc. by rewrite ensurePage_error_page, Hs, Hc.
  - intros ode clientOnly Hc Hs Ho. rewrite ensurePage_error_page, Hc, Ho.
    destruct clientOnly; [done|]. by rewrite Hs.
  - intros clientOnly Hc Hs Ho. rewrite ensurePage_error_page, Hc, Ho.
    destruct clientOnly; [done|]. by rewrite Hs.
  - intros pathname path decoded Hm Hd Hp.
    rewrite (handlePageBundleRequest_decoded _ _ path decoded) by done.
    cbv zeta. rewrite Hp. cbn [String.eqb Ascii.eqb Bool.eqb orb].
    rewrite ensure_and_check_cases, ensurePage_error_page. split_and!.
    + intros error Hc. by rewrite Hc.
    + intros ode Hc Ho. rewrite Hc, Ho.
      destruct (ode_ensurePage ode "/_error" true) as [[]|error|]; [|done|done].
      by destruct (getCompilationErrors this "/_error") as [[|error errors]|r|].
    + intros Hc Ho. rewrite Hc, Ho.
      by destruct (getCompilationErrors this "/_error") as [[|error errors]|r|].
Qed.

(** ** C7: the walk to the entry module *)

(** On a chain of [d] issuer links the recursion needs [d + 1] stack
    frames: with that many it returns the root, with fewer the engine
    throws. *)
Lemma findEntryModule_chain (modules : ModuleId → JsModule) (m root : ModuleId) (d : nat) :
  issuer_chain modules m d root →
  ∀ budget,
    findEntryModule budget modules m
    = if decide (d < budget)%nat then Resolved root else Rejected RangeError.
Proof.
  induction 1 as [m Hroot | m parent d root Hlink Hchain IH]; intros budget.
  - destruct budget as [|budget]; simpl; [done|]. by rewrite Hroot.
  - destruct budget as [|budget]; simpl; [done|]. rewrite Hlink, IH.
    destruct (decide (d < budget)), (decide (S d < S budget)); done || lia.
Qed.

Lemma issuer_chain_root (modules : ModuleId → JsModule) (m root : ModuleId) (d : nat) :
  issuer_chain modules m d root → mod_issuer (modules root) = None.
Proof. induction 1; done. Qed.

(** ** C5: getCompilationErrors *)

Lemma error_page_resolves (c : Compilation) (error : JsValue) :
  (∀ m, err_module error = Some m →
     ∃ d root, issuer_chain (comp_modules c) m d root ∧ (d < stack_limit)%nat) →
  ∃ page, error_page c error = Resolved page.
Proof.
  intros Hchain. unfold error_page.
  destruct (err_module error) as [m|]; [|by eexists].
  destruct (Hchain m eq_refl) as (d & root & Hc & Hd).
  rewrite (findEntryModule_chain _ _ _ _ Hc), decide_True by done.
  destruct (negb _); [by eexists|]. destruct (negb _); by eexists.
Qed.

Lemma erroredPages_loop_lookup (c : Compilation) (errors : list JsValue)
    (failedPages failedPages' : gmap string (list JsValue)) (page : string) :
  erroredPages_loop c errors failedPages = Resolved failedPages' →
  failedPages' !! page =
    match List.filter (attributed_to c page) errors with
    | [] => failedPages !! page
    | l => Some (default [] (failedPages !! page) ++ l)
    end.
Proof.
  revert failedPages. induction errors as [|error errors IH]; intros failedPages; simpl.
  - by intros [= ->].
  - unfold erroredPages_step, attributed_to.
    destruct (error_page c error) as [[p|]|r|] eqn:Ep; try done.
    + intros Hloop. rewrite (IH _ Hloop). destruct (String.eqb_spec p page) as [->|Hne].
      * rewrite lookup_insert_eq. simpl.
        destruct (List.filter _ errors); simpl; [done|]. by rewrite <- app_assoc.
      * by rewrite lookup_insert_ne.
    + intros Hloop. by rewrite (IH _ Hloop).
Qed.

Lemma erroredPages_loop_resolves (c : Compilation) (errors : list JsValue)
    (failedPages : gmap string (list JsValue)) :
  (∀ error, error ∈ errors → ∃ page, error_page c error = Resolved page) →
  ∃ failedPages', erroredPages_loop c errors failedPages = Resolved failedPages'.
Proof.
  revert failedPages. induction errors as [|error errors IH]; intros failedPages Hall; simpl.
  - by eexists.
  - destruct (Hall error) as [page Hp]; [left|].
    unfold erroredPages_step. rewrite Hp.
    destruct page; apply IH; intros e He; apply Hall; by right.
Qed.

(** The index built by [erroredPages], read at one page. *)
Lemma erroredPages_lookup (c : Compilation) (failedPages : gmap string (list JsValue))
    (page : string) :
  erroredPages c = Resolved failedPages →
  failedPages !! page =
    match attributed c page with
    | [] => None
    | l => Some l
    end.
Proof.
  intros Hep. unfold erroredPages in Hep.
  rewrite (erroredPages_loop_lookup _ _ _ _ page Hep), lookup_empty.
  unfold attributed. by destruct (List.filter _ _).
Qed.

Lemma errors_of_target_resolved (stats : Stats) (normalizedPage : string) :
  attribution_resolves (compilation stats) →
  errors_of_target stats normalizedPage = Resolved (target_errors stats normalizedPage).
Proof.
  intros Hres. unfold errors_of_target, target_errors.
  destruct (erroredPages_loop_resolves (compilation stats) (comp_errors (compilation stats)) ∅)
    as [failedPages Hfp].
  { intros error He. apply error_page_resolves. intros m Hm. by apply (Hres error). }
  fold (erroredPages (compilation stats)) in Hfp. rewrite Hfp.
  rewrite (erroredPages_lookup _ _ normalizedPage Hfp).
  by destruct (attributed _ _).
Qed.

(** C5, as the code has it. [getCompilationErrors] answers, in this
    order: the recorded compile-level failure alone (the client's before
    the server's) when there is one; else, when the client target has
    errors, the client errors attributed to the page if there are any and
    the client's whole error list if not; else, when the server target has
    errors, the server errors attributed to the page if there are any and
    the server's whole error list if not; else the empty list. The page's
    errors on the server target are consulted only when the client target
    has no errors at all. *)
Theorem getCompilationErrors_priority (this : HotReloader) (page : string) :
  (∀ e, clientError this = Some e → getCompilationErrors this page = Resolved [e])
  ∧ (∀ e, clientError this = None → serverError this = Some e →
       getCompilationErrors this page = Resolved [e])
  ∧ (clientError this = None → serverError this = None →
       (∀ stats, clientStats this = Some stats → hasErrors stats = true →
          attribution_resolves (compilation stats) →
          getCompilationErrors this page
          = Resolved (target_errors stats (normalizePathSep page)))
       ∧ (∀ stats, stats_hasErrors (clientStats this) = false →
            serverStats this = Some stats → hasErrors stats = true →
            attribution_resolves (compilation stats) →
            getCompilationErrors this page
            = Resolved (target_errors stats (normalizePathSep page)))
       ∧ (stats_hasErrors (clientStats this) = false →
          stats_hasErrors (serverStats this) = false →
          getCompilationErrors this page = Resolved [])).
Proof.
  unfold getCompilationErrors. split_and!.
  - intros e ->. done.
  - intros e -> ->. done.
  - intros -> ->. split_and!.
    + intros stats Hs Herr Hres. rewrite Hs. simpl. rewrite Herr.
      by apply errors_of_target_resolved.
    + intros stats -> Hs Herr Hres. rewrite Hs. simpl. rewrite Herr.
      by apply errors_of_target_resolved.
    + intros -> ->. done.
Qed.

(** C7, as the code has it. The walk is the plain recursion along the
    issuer links, with no depth guard of its own: from a module whose
    chain of [d] links ends at a module without issuer it returns that
    root whenever the engine's call stack has room for the [d + 1] nested
    calls, whatever [d] is, and throws the engine's [RangeError] when it
    has not. *)
Theorem findEntryModule_returns_root (modules : ModuleId → JsModule)
    (m root : ModuleId) (d : nat) :
  issuer_chain modules m d root →
  mod_issuer (modules root) = None
  ∧ (∀ budget : nat, (d < budget)%nat → findEntryModule budget modules m = Resolved root)
  ∧ (∀ budget : nat, (budget ≤ d)%nat → findEntryModule budget modules m = Rejected RangeError).
Proof.
  intros Hchain. split_and!.
  - by apply (issuer_chain_root modules m root d).
  - intros budget Hd. by rewrite (findEntryModule_chain _ _ _ _ Hchain), decide_True.
  - intros budget Hd. rewrite (findEntryModule_chain _ _ _ _ Hchain), decide_False; [done|lia].
Qed.


(** A walk that never meets a module without issuer never returns one. *)
Lemma findEntryModule_endless (modules : ModuleId → JsModule) :
  (∀ m, mod_issuer (modules m) ≠ None) →
  ∀ budget m, findEntryModule budget modules m = Rejected RangeError.
Proof.
  intros Hnext budget. induction budget as [|budget IH]; intros m; simpl; [done|].
  destruct (mod_issuer (modules m)) as [parent|] eqn:E; [apply IH | by destruct (Hnext m)].
Qed.

(** ** C2: page changes between passes *)

Lemma track_chunks_record_hash (key : string) (chunks : list Chunk)
    (st : gmap string string * list string) :
  foldl (track_chunk key) st chunks
  = foldl record_hash st
      (map (fun chunk => (key, chunk_hash chunk))
         (List.filter (fun chunk => strict_eq (chunk_id chunk) (Some key)) chunks)).
Proof.
  revert st. induction chunks as [|chunk chunks IH]; intros st; simpl; [done|].
  rewrite IH. unfold track_chunk. destruct st as [pageHashMap changedItems].
  destruct (strict_eq (chunk_id chunk) (Some key)); reflexivity.
Qed.

(** [trackPageChanges] records the page hashes of the pass one by one. *)
Lemma trackPageChanges_record_hash (pageHashMap : gmap string string)
    (changedItems : list string) (stats : Compilation) :
  trackPageChanges pageHashMap changedItems stats
  = foldl record_hash (pageHashMap, changedItems) (page_hashes stats).
Proof.
  unfold trackPageChanges, page_hashes.
  generalize (pageHashMap, changedItems) as st.
  induction (comp_entrypoints stats) as [|[key chunks] entries IH]; intros st; simpl; [done|].
  rewrite foldl_app, IH. f_equal.
  destruct (startsWith "pages/" key); [apply track_chunks_record_hash | done].
Qed.

Lemma map_set_lookup (key k : string) (hash : option string) (m : gmap string string) :
  map_set key hash m !! k = if decide (key = k) then hash else m !! k.
Proof.
  unfold map_set. destruct hash as [h|].
  - by rewrite lookup_insert.
  - rewrite lookup_delete. by destruct (decide (key = k)).
Qed.

Lemma assoc_get_None {A} (k : string) (l : list (string * A)) :
  k ∉ l.*1 → assoc_get k l = None.
Proof.
  induction l as [|[k' v] l IH]; simpl; [done|].
  intros Hk. apply not_elem_of_cons in Hk as [Hne Hk].
  destruct (String.eqb_spec k k'); [done | by apply IH].
Qed.

Lemma assoc_get_elem_of {A} (k : string) (v : A) (l : list (string * A)) :
  NoDup l.*1 → (k, v) ∈ l → assoc_get k l = Some v.
Proof.
  induction l as [|[k' v'] l IH]; simpl; intros Hnd Hin.
  - by apply elem_of_nil in Hin.
  - apply NoDup_cons in Hnd as [Hk' Hnd].
    apply elem_of_cons in Hin as [[= <- <-] | Hin].
    + by rewrite String.eqb_refl.
    + destruct (String.eqb_spec k k') as [->|Hne]; [|by apply IH].
      destruct Hk'. apply list_elem_of_fmap. by exists (k', v).
Qed.

(** The closed form of a run of [record_hash] over distinct keys. *)
Lemma record_hashes_spec (l : list (string * option string))
    (pageHashMap : gmap string string) (changedItems : list string) :
  NoDup l.*1 →
  (∀ k, (foldl record_hash (pageHashMap, changedItems) l).1 !! k
        = match assoc_get k l with
          | Some hash => hash
          | None => pageHashMap !! k
          end)
  ∧ (∀ k, k ∈ (foldl record_hash (pageHashMap, changedItems) l).2
          ↔ k ∈ changedItems
            ∨ ∃ prevHash hash, pageHashMap !! k = Some prevHash ∧ prevHash ≠ ""
                ∧ (k, hash) ∈ l ∧ hash ≠ Some prevHash).
Proof.
  revert pageHashMap changedItems.
  induction l as [|[key hash] l IH]; intros pageHashMap changedItems Hnd; simpl.
  - split; [done|]. intros k. split; [auto|].
    intros [?|(?&?&_&_&Hin&_)]; [done | by apply elem_of_nil in Hin].
  - apply NoDup_cons in Hnd as [Hkey Hnd].
    unfold record_hash at 2 4. simpl.
    destruct (IH (map_set key hash pageHashMap)
                (if js_truthy (pageHashMap !! key)
                      && negb (strict_eq (pageHashMap !! key) hash)
                 then set_add changedItems key else changedItems) Hnd) as [IHm IHc].
    split.
    + intros k. rewrite IHm, map_set_lookup.
      destruct (String.eqb_spec k key) as [->|Hne].
      * rewrite assoc_get_None by done. by rewrite decide_True.
      * destruct (assoc_get k l); [done|]. by rewrite decide_False.
    + intros k. rewrite IHc. clear IHm IHc. split.
      * intros [Hin | (prevHash & h & Hprev & Hne & Hin & Hdiff)].
        -- destruct (js_truthy (pageHashMap !! key)
                     && negb (strict_eq (pageHashMap !! key) hash)) eqn:E; [|by left].
           apply elem_of_set_add in Hin as [Hin | ->]; [by left|].
           apply andb_true_iff in E as [Ht Hd].
           apply negb_true_iff, strict_eq_false in Hd.
           destruct (pageHashMap !! key) as [prevHash|] eqn:Ek; [|done].
           right. exists prevHash, hash. split_and!; [done| |left|done].
           intros ->. done.
        -- assert (key ≠ k) as Hk.
           { intros ->. apply Hkey, list_elem_of_fmap. by exists (k, h). }
           rewrite map_set_lookup, decide_False in Hprev by done.
           right. exists prevHash, h. split_and!; [done|done|by right|done].
      * intros [Hin | (prevHash & h & Hprev & Hne & Hin & Hdiff)].
        -- left. destruct (_ && _); [apply elem_of_set_add; by left | done].
        -- apply elem_of_cons in Hin as [[= -> ->] | Hin].
           ++ left. rewrite Hprev. simpl.
              assert (negb (String.eqb prevHash "") = true) as ->.
              { apply negb_true_iff. by apply String.eqb_neq. }
              assert (strict_eq (Some prevHash) hash = false) as ->.
              { apply strict_eq_false. congruence. }
              simpl. apply elem_of_set_add. by right.
           ++ assert (key ≠ k) as Hk.
              { intros ->. apply Hkey, list_elem_of_fmap. by exists (k, h). }
              right. exists prevHash, h.
              rewrite map_set_lookup, decide_False by done. done.
Qed.

(** The keys that a pass marks as changed, and the map it leaves. *)
Lemma trackPageChanges_spec (pageHashMap : gmap string string) (stats : Compilation) :
  NoDup (page_hashes stats).*1 →
  (∀ k, (trackPageChanges pageHashMap [] stats).1 !! k
        = match assoc_get k (page_hashes stats) with
          | Some hash => hash
          | None => pageHashMap !! k
          end)
  ∧ (∀ k, k ∈ (trackPageChanges pageHashMap [] stats).2
          ↔ ∃ prevHash hash, pageHashMap !! k = Some prevHash ∧ prevHash ≠ ""
              ∧ (k, hash) ∈ page_hashes stats ∧ hash ≠ Some prevHash).
Proof.
  intros Hnd. rewrite trackPageChanges_record_hash.
  destruct (record_hashes_spec (page_hashes stats) pageHashMap [] Hnd) as [Hmap Hchanged].
  split; [exact Hmap|].
  intros k. rewrite Hchanged. split; [|by right].
  intros [Hin|?]; [by apply elem_of_nil in Hin | done].
Qed.

(** C2, as the code has it. On a pass of a target whose page keys are
    distinct: [addedPages] are the route-shaped chunk names of the new
    pass that the previous pass did not have and [removedPages] those of
    the previous pass that the new one does not have; a key is marked
    changed exactly when the pass offers a hash for it that differs from
    the non-empty hash that [pageHashMap] retains for it. The map is
    updated at the keys of the pass and keeps every other key, so the
    retained hash is that of the latest pass that had the key, which need
    not be the previous one. Added and removed pages are disjoint; when
    every page key of the pass is one of its chunk names, removed and
    changed pages are disjoint; added and changed pages are disjoint when
    the map retains chunk names of the previous pass only. *)
Theorem page_changes_between_passes (pageHashMap : gmap string string)
    (prev : list string) (stats : Compilation) :
  NoDup (page_hashes stats).*1 →
  (∀ k, k ∈ diff (chunkNames_of stats) prev ↔ k ∈ chunkNames_of stats ∧ k ∉ prev)
  ∧ (∀ k, k ∈ diff prev (chunkNames_of stats) ↔ k ∈ prev ∧ k ∉ chunkNames_of stats)
  ∧ (∀ k, k ∈ (trackPageChanges pageHashMap [] stats).2
          ↔ ∃ prevHash hash, pageHashMap !! k = Some prevHash ∧ prevHash ≠ ""
              ∧ (k, hash) ∈ page_hashes stats ∧ hash ≠ Some prevHash)
  ∧ (∀ k, (trackPageChanges pageHashMap [] stats).1 !! k
          = match assoc_get k (page_hashes stats) with
            | Some hash => hash
            | None => pageHashMap !! k
            end)
  ∧ (∀ k, k ∈ diff (chunkNames_of stats) prev → k ∉ diff prev (chunkNames_of stats))
  ∧ ((∀ k, k ∈ (page_hashes stats).*1 → k ∈ chunkNames_of stats) →
     ∀ k, k ∈ diff prev (chunkNames_of stats) →
          k ∉ (trackPageChanges pageHashMap [] stats).2)
  ∧ ((∀ k, is_Some (pageHashMap !! k) → k ∈ prev) →
     ∀ k, k ∈ diff (chunkNames_of stats) prev →
          k ∉ (trackPageChanges pageHashMap [] stats).2).
Proof.
  intros Hnd.
  destruct (trackPageChanges_spec pageHashMap stats Hnd) as [Hmap Hch].
  split_and!.
  - intros k. apply elem_of_diff.
  - intros k. apply elem_of_diff.
  - exact Hch.
  - exact Hmap.
  - intros k [_ Hk]%elem_of_diff [Hk' _]%elem_of_diff. done.
  - intros Hnames k [_ Hk]%elem_of_diff (prevHash & hash & _ & _ & Hin & _)%Hch.
    apply Hk, Hnames, list_elem_of_fmap. by exists (k, hash).
  - intros Hdom k [_ Hk]%elem_of_diff (prevHash & hash & Hprev & _)%Hch.
    apply Hk, Hdom. by exists prevHash.
Qed.

(** When the map retains exactly the previous pass, with hashes that are
    not empty, the three sets classify every key: a key of one of the two
    passes is added, removed, changed, or has the same hash in both. *)
Corollary page_changes_exhaustive (pageHashMap : gmap string string)
    (prev : list string) (stats : Compilation) :
  NoDup (page_hashes stats).*1 →
  (∀ k, is_Some (pageHashMap !! k) ↔ k ∈ prev) →
  (∀ k, k ∈ (page_hashes stats).*1 ↔ k ∈ chunkNames_of stats) →
  (∀ k, pageHashMap !! k ≠ Some "") →
  ∀ k, k ∈ prev ∨ k ∈ chunkNames_of stats →
    k ∈ diff (chunkNames_of stats) prev
    ∨ k ∈ diff prev (chunkNames_of stats)
    ∨ k ∈ (trackPageChanges pageHashMap [] stats).2
    ∨ ∃ hash, pageHashMap !! k = Some hash ∧ (k, Some hash) ∈ page_hashes stats.
Proof.
  intros Hnd Hprev Hnames Hne k Hk.
  destruct (trackPageChanges_spec pageHashMap stats Hnd) as [_ Hc].
  pose proof (elem_of_diff (chunkNames_of stats) prev) as Ha.
  pose proof (elem_of_diff prev (chunkNames_of stats)) as Hr.
  destruct (decide (k ∈ prev)) as [Hp|Hp], (decide (k ∈ chunkNames_of stats)) as [Hn|Hn].
  - apply Hprev in Hp as [prevHash Hph].
    apply Hnames, list_elem_of_fmap in Hn as ([k' hash] & -> & Hin). simpl in *.
    destruct (decide (hash = Some prevHash)) as [->|Hd].
    + right; right; right. by exists prevHash.
    + right; right; left. apply Hc. exists prevHash, hash. split_and!; try done.
      intros ->. by apply (Hne k').
  - right; left. by apply Hr.
  - left. by apply Ha.
  - by destruct Hk.
Qed.

(** ** C8: the entry map of a pass *)

Lemma key_page_length (isClientKey : bool) :
  (if isClientKey then String.length "client" else String.length "server") = 6.
Proof. by destruct isClientKey. Qed.

(** Opens [inject_entry] and the guards read off it. *)
Ltac inject_entry_unfold :=
  unfold inject_entry, reaches_existence_test, left_to_server_web, gets_entrypoint;
  rewrite ?key_page_length.

Lemma inject_entry_skipped (this : HotReloader) (config : WebpackConfig)
    (st : PassState) (pageKey : string) :
  reaches_existence_test config pageKey = false →
  inject_entry this config st pageKey = st.
Proof.
  inject_entry_unfold.
  destruct (strict_eq (cfg_name config) (Some "client")),
    (startsWith "client" pageKey), (API_ROUTE (js_slice 6 pageKey)),
    (MIDDLEWARE_ROUTE (js_slice 6 pageKey)); simpl; done.
Qed.

Lemma inject_entry_absent (this : HotReloader) (config : WebpackConfig)
    (st : PassState) (pageKey : string) :
  entries st !! pageKey = None →
  inject_entry this config st pageKey = st.
Proof.
  intros Hk. inject_entry_unfold. rewrite Hk.
  destruct (strict_eq (cfg_name config) (Some "client")),
    (startsWith "client" pageKey), (API_ROUTE (js_slice 6 pageKey)),
    (MIDDLEWARE_ROUTE (js_slice 6 pageKey)); simpl; done.
Qed.

Lemma inject_entry_gone (this : HotReloader) (config : WebpackConfig)
    (st : PassState) (pageKey : string) (entry : EntryData) :
  reaches_existence_test config pageKey = true →
  entries st !! pageKey = Some entry →
  dispose entry || negb (fileExists (absolutePagePath entry)) = true →
  inject_entry this config st pageKey
  = {| entries := delete pageKey (entries st);
       entrypoints := entrypoints st;
       ssrEntries := ssrEntries st |}.
Proof.
  intros Hr Hk Hgone. revert Hr. inject_entry_unfold. rewrite Hk.
  assert (negb (negb (dispose entry) && fileExists (absolutePagePath entry)) = true) as Hg.
  { destruct (dispose entry), (fileExists _); done. }
  rewrite Hg.
  destruct (strict_eq (cfg_name config) (Some "client")),
    (startsWith "client" pageKey), (API_ROUTE (js_slice 6 pageKey)),
    (MIDDLEWARE_ROUTE (js_slice 6 pageKey)); simpl; done.
Qed.

Lemma inject_entry_left (this : HotReloader) (config : WebpackConfig)
    (st : PassState) (pageKey : string) (entry : EntryData) :
  entries st !! pageKey = Some entry →
  dispose entry || negb (fileExists (absolutePagePath entry)) = false →
  left_to_server_web this config pageKey = true →
  inject_entry this config st pageKey = st.
Proof.
  intros Hk Hgone. inject_entry_unfold. rewrite Hk.
  assert (negb (negb (dispose entry) && fileExists (absolutePagePath entry)) = false) as Hg.
  { destruct (dispose entry), (fileExists _); done. }
  rewrite Hg.
  destruct (strict_eq (cfg_name config) (Some "client")),
    (strict_eq (cfg_name config) (Some "server")), (webServerRuntime this),
    (startsWith "client" pageKey), (API_ROUTE (js_slice 6 pageKey)),
    (MIDDLEWARE_ROUTE (js_slice 6 pageKey)); simpl; done.
Qed.

Lemma inject_entry_built (this : HotReloader) (config : WebpackConfig)
    (st : PassState) (pageKey : string) (entry : EntryData) :
  reaches_existence_test config pageKey = true →
  entries st !! pageKey = Some entry →
  dispose entry || negb (fileExists (absolutePagePath entry)) = false →
  left_to_server_web this config pageKey = false →
  entries (inject_entry this config st pageKey)
  = <[pageKey := with_status entry BUILDING]> (entries st)
  ∧ (gets_entrypoint config pageKey = true →
       is_Some (entrypoints (inject_entry this config st pageKey) !! bundlePath entry))
  ∧ (gets_entrypoint config pageKey = false →
       entrypoints (inject_entry this config st pageKey) = entrypoints st).
Proof.
  intros Hr Hk Hgone Hl. revert Hr Hl. inject_entry_unfold. rewrite Hk.
  assert (negb (negb (dispose entry) && fileExists (absolutePagePath entry)) = false) as Hg.
  { destruct (dispose entry), (fileExists _); done. }
  rewrite Hg.
  destruct (strict_eq (cfg_name config) (Some "client")),
    (strict_eq (cfg_name config) (Some "server")),
    (strict_eq (cfg_name config) (Some "server-web")),
    (webServerRuntime this),
    (startsWith "client" pageKey), (API_ROUTE (js_slice 6 pageKey)),
    (MIDDLEWARE_ROUTE (js_slice 6 pageKey)),
    (is_special_page (js_slice 6 pageKey)); simpl; intros; try done;
    (split_and!; [done | intros; try done; rewrite lookup_insert_eq; by eexists
                 | intros; done]).
Qed.

(** The registry after one callback, read at any key. *)
Lemma inject_entry_lookup (this : HotReloader) (config : WebpackConfig)
    (st : PassState) (k k' : string) :
  entries (inject_entry this config st k) !! k'
  = if decide (k = k') then entries st !! k ≫= entry_fate this config k
    else entries st !! k'.
Proof.
  destruct (entries st !! k) as [entry|] eqn:Hk.
  2: { rewrite inject_entry_absent by done. destruct (decide (k = k')) as [<-|]; by rewrite ?Hk. }
  simpl. unfold entry_fate.
  destruct (reaches_existence_test config k) eqn:Hr.
  2: { rewrite inject_entry_skipped by done. destruct (decide (k = k')) as [<-|]; by rewrite ?Hk. }
  destruct (dispose entry || negb (fileExists (absolutePagePath entry))) eqn:Hg.
  { rewrite (inject_entry_gone _ _ _ _ entry) by done. simpl.
    rewrite lookup_delete. by destruct (decide (k = k')). }
  destruct (left_to_server_web this config k) eqn:Hl.
  { rewrite (inject_entry_left _ _ _ _ entry) by done.
    destruct (decide (k = k')) as [<-|]; by rewrite ?Hk. }
  destruct (inject_entry_built this config st k entry Hr Hk Hg Hl) as [-> _].
  rewrite lookup_insert. by destruct (decide (k = k')).
Qed.

Lemma entry_fate_idemp (this : HotReloader) (config : WebpackConfig)
    (k : string) (entry : EntryData) :
  entry_fate this config k entry ≫= entry_fate this config k
  = entry_fate this config k entry.
Proof.
  unfold entry_fate. destruct (reaches_existence_test config k) eqn:Hr; simpl; rewrite ?Hr; [|done].
  destruct (dispose entry || negb (fileExists (absolutePagePath entry))) eqn:Hg; [done|].
  destruct (left_to_server_web this config k) eqn:Hl; simpl; rewrite ?Hr, ?Hg, ?Hl; done.
Qed.

(** The registry after the whole loop, in whatever order the keys are
    taken. *)
Lemma inject_entries_lookup (this : HotReloader) (config : WebpackConfig)
    (keys : list string) (st : PassState) (k : string) :
  entries (inject_entries this config keys st) !! k
  = if decide (k ∈ keys) then entries st !! k ≫= entry_fate this config k
    else entries st !! k.
Proof.
  unfold inject_entries. revert st. induction keys as [|k0 keys IH]; intros st; simpl.
  - done.
  - rewrite IH, inject_entry_lookup.
    destruct (decide (k0 = k)) as [->|Hne].
    + rewrite (decide_True (P := k ∈ k :: keys)) by left.
      destruct (decide (k ∈ keys)); [|done].
      destruct (entries st !! k) as [entry|]; [apply entry_fate_idemp | done].
    + destruct (decide (k ∈ keys)) as [Hin|Hnin].
      * rewrite decide_True; [done | by right].
      * rewrite decide_False; [done|]. intros [?|?]%elem_of_cons; done.
Qed.

(** A callback adds at most one entrypoint and removes none. *)
Lemma inject_entry_entrypoints (this : HotReloader) (config : WebpackConfig)
    (st : PassState) (k : string) :
  entrypoints (inject_entry this config st k) = entrypoints st
  ∨ ∃ b ep, entrypoints (inject_entry this config st k) = <[b := ep]> (entrypoints st).
Proof.
  unfold inject_entry. rewrite ?key_page_length.
  repeat match goal with
         | |- context [if ?b then _ else _] => destruct b; simpl; eauto
         | |- context [match ?o with Some _ => _ | None => _ end] => destruct o; simpl; eauto
         end.
Qed.

Lemma inject_entry_entrypoints_mono (this : HotReloader) (config : WebpackConfig)
    (st : PassState) (k b : string) :
  is_Some (entrypoints st !! b) →
  is_Some (entrypoints (inject_entry this config st k) !! b).
Proof.
  intros Hb. destruct (inject_entry_entrypoints this config st k) as [->|(b' & ep & ->)];
    [done|]. rewrite lookup_insert_is_Some. destruct (decide (b' = b)); auto.
Qed.

Lemma inject_entries_entrypoints_mono (this : HotReloader) (config : WebpackConfig)
    (keys : list string) (st : PassState) (b : string) :
  is_Some (entrypoints st !! b) →
  is_Some (entrypoints (inject_entries this config keys st) !! b).
Proof.
  unfold inject_entries. revert st. induction keys as [|k keys IH]; intros st Hb; simpl;
    [done|]. by apply IH, inject_entry_entrypoints_mono.
Qed.


End HotReloaderProperties.

(** ** C9: buildFallbackError *)

Lemma fallback_call_index (calls : list CallStage) (stage : CallStage) :
  (calls ++ [stage]) !! List.length calls = Some stage.
Proof. by rewrite list_lookup_middle. Qed.

Lemma fallback_call_update (calls : list CallStage) (stage stage' : CallStage) :
  <[List.length calls := stage']> (calls ++ [stage]) = calls ++ [stage'].
Proof.
  replace (List.length calls) with (List.length calls + 0) by lia.
  by rewrite insert_app_r.
Qed.

(** An awaited call that finds no watcher requests one configuration,
    starts one compiler and sets the watcher. *)
Lemma awaited_call_builds (st : FallbackState) :
  fallbackWatcher st = false →
  fallback_run st (awaited_call st)
  = {| fallbackWatcher := true;
       calls := calls st ++ [Returned];
       configsRequested := S (configsRequested st);
       compilersStarted := S (compilersStarted st) |}.
Proof.
  intros Hw. unfold fallback_run, awaited_call. cbn [foldl].
  unfold fallback_step at 3. rewrite Hw.
  unfold fallback_step at 2. cbn [calls]. rewrite fallback_call_index.
  cbn [fallbackWatcher calls configsRequested compilersStarted].
  rewrite fallback_call_update.
  unfold fallback_step. cbn [calls]. rewrite fallback_call_index.
  cbn [fallbackWatcher calls configsRequested compilersStarted].
  by rewrite fallback_call_update.
Qed.

(** An awaited call that finds the watcher returns at once: no
    configuration is requested and no compiler is started. *)
Lemma awaited_call_returns (st : FallbackState) :
  fallbackWatcher st = true →
  fallback_run st (awaited_call st)
  = {| fallbackWatcher := true;
       calls := calls st ++ [Returned];
       configsRequested := configsRequested st;
       compilersStarted := compilersStarted st |}.
Proof.
  intros Hw. unfold fallback_run, awaited_call. cbn [foldl].
  unfold fallback_step at 3. rewrite Hw.
  unfold fallback_step at 2. cbn [calls]. rewrite fallback_call_index.
  unfold fallback_step. cbn [calls]. by rewrite fallback_call_index.
Qed.

Lemma awaited_calls_after_build (n : nat) (st : FallbackState) :
  fallbackWatcher st = true →
  fallbackWatcher (awaited_calls n st) = true
  ∧ configsRequested (awaited_calls n st) = configsRequested st
  ∧ compilersStarted (awaited_calls n st) = compilersStarted st.
Proof.
  revert st. induction n as [|n IH]; intros st Hw; cbn [awaited_calls]; [done|].
  rewrite awaited_call_returns by done.
  destruct (IH {| fallbackWatcher := true;
                  calls := calls st ++ [Returned];
                  configsRequested := configsRequested st;
                  compilersStarted := compilersStarted st |} eq_refl)
    as (? & ? & ?). done.
Qed.

(** Calls that are awaited one after the other build the fallback once:
    the first starts the one compiler, every later one does nothing. *)
Theorem buildFallbackError_awaited_calls_build_once (n : nat) :
  compilersStarted (awaited_calls (S n) fallback_initial) = 1
  ∧ configsRequested (awaited_calls (S n) fallback_initial) = 1
  ∧ fallbackWatcher (awaited_calls (S n) fallback_initial) = true.
Proof.
  cbn [awaited_calls]. rewrite awaited_call_builds by done.
  destruct (awaited_calls_after_build n
              {| fallbackWatcher := true;
                 calls := calls fallback_initial ++ [Returned];
                 configsRequested := S (configsRequested fallback_initial);
                 compilersStarted := S (compilersStarted fallback_initial) |} eq_refl)
    as (? & ? & ?). done.
Qed.

(** C9, on two calls the second of which is made before the first has set
    the watcher (both requests are in flight): each call finds no watcher,
    so each requests a configuration and each starts a compiler; the
    fallback is built twice. *)
Theorem buildFallbackError_overlapping_calls_build_twice :
  fallback_run fallback_initial
    [ CallBuildFallbackError; CallBuildFallbackError;
      ConfigResolved 0; ConfigResolved 1;
      WatchCallback 0; WatchCallback 1 ]
  = {| fallbackWatcher := true;
       calls := [Returned; Returned];
       configsRequested := 2;
       compilersStarted := 2 |}.
Proof. reflexivity. Qed.

(** * Further properties of the hot reloader *)

Section FurtherProperties.
Context `{Collaborators}.

(** ** findEntryModule *)

Lemma findEntryModule_resolved_chain (modules : ModuleId → JsModule) (budget : nat)
    (m root : ModuleId) :
  findEntryModule budget modules m = Resolved root →
  ∃ d, issuer_chain modules m d root ∧ (d < budget)%nat.
Proof.
  revert m. induction budget as [|budget IH]; intros m; simpl; [done|].
  destruct (mod_issuer (modules m)) as [parent|] eqn:E.
  - intros (d & Hchain & Hd)%IH. exists (S d). split; [|lia].
    by apply (chain_link _ m parent).
  - intros [= <-]. exists 0. split; [by apply chain_root | lia].
Qed.

(** Whenever the walk returns a module, that module has no issuer and
    ends the issuer chain of the module the walk started from, and the
    walk returns the same module with any larger stack. *)
Theorem findEntryModule_sound (modules : ModuleId → JsModule) (budget : nat)
    (m root : ModuleId) :
  findEntryModule budget modules m = Resolved root →
  mod_issuer (modules root) = None
  ∧ (∃ d, issuer_chain modules m d root ∧ (d < budget)%nat)
  ∧ (∀ budget' : nat, (budget ≤ budget')%nat →
       findEntryModule budget' modules m = Resolved root).
Proof.
  intros Hres. destruct (findEntryModule_resolved_chain _ _ _ _ Hres) as (d & Hchain & Hd).
  split_and!.
  - by apply (issuer_chain_root modules m root d).
  - by exists d.
  - intros budget' Hb. rewrite (findEntryModule_chain _ _ _ _ Hchain), decide_True; [done|lia].
Qed.

(** ** trackPageChanges *)

Lemma record_hash_keeps (l : list (string * option string))
    (pageHashMap : gmap string string) (changedItems : list string) :
  (∀ k, k ∈ changedItems → k ∈ (foldl record_hash (pageHashMap, changedItems) l).2)
  ∧ (NoDup changedItems → NoDup (foldl record_hash (pageHashMap, changedItems) l).2)
  ∧ (∀ k, k ∈ (foldl record_hash (pageHashMap, changedItems) l).2 →
          k ∈ changedItems ∨ k ∈ l.*1)
  ∧ (∀ k, k ∉ l.*1 →
          (foldl record_hash (pageHashMap, changedItems) l).1 !! k = pageHashMap !! k).
Proof.
  revert pageHashMap changedItems.
  induction l as [|[key hash] l IH]; intros pageHashMap changedItems; simpl.
  - split_and!; auto.
  - unfold record_hash at 2 4 6 8. simpl.
    set (changed' := if js_truthy (pageHashMap !! key)
                          && negb (strict_eq (pageHashMap !! key) hash)
                     then set_add changedItems key else changedItems).
    destruct (IH (map_set key hash pageHashMap) changed') as (Hk & Hnd & Hnew & Hmap).
    assert (∀ k, k ∈ changedItems → k ∈ changed') as Hin.
    { intros k Hc. unfold changed'. destruct (_ && _); [|done].
      apply elem_of_set_add. by left. }
    assert (∀ k, k ∈ changed' → k ∈ changedItems ∨ k = key) as Hout.
    { intros k. unfold changed'. destruct (_ && _); [|by left].
      by intros ?%elem_of_set_add. }
    split_and!.
    + intros k Hc. by apply Hk, Hin.
    + intros Hc. apply Hnd. unfold changed'. destruct (_ && _); [|done].
      by apply NoDup_set_add.
    + intros k [[Hc| ->]%Hout | Hl]%Hnew.
      * by left.
      * right. left.
      * right. by right.
    + intros k [Hne Hl]%not_elem_of_cons. rewrite Hmap by done.
      rewrite map_set_lookup. by rewrite decide_False.
Qed.

Lemma elem_of_page_hashes_keys (stats : Compilation) (k : string) :
  k ∈ (page_hashes stats).*1 →
  startsWith "pages/" k = true ∧ k ∈ (comp_entrypoints stats).*1.
Proof.
  unfold page_hashes. intros ([k' hash] & -> & Hin)%list_elem_of_fmap. simpl.
  apply list_elem_of_In, in_flat_map in Hin as ([key chunks] & Hentry & Hin).
  simpl in Hin. destruct (startsWith "pages/" key) eqn:Hp; [|done].
  apply in_map_iff in Hin as (chunk & [= <- _] & _).
  split; [done|]. apply list_elem_of_fmap. exists (key, chunks). split; [done|].
  by apply list_elem_of_In.
Qed.

(** The hook only ever marks: a key that is marked stays marked, the set
    of marked keys stays free of repetitions, a key marked by the pass is
    the key of one of its entrypoints and starts with [pages/], and the
    hash retained for a key that the pass does not offer is untouched. *)
Theorem trackPageChanges_invariants (pageHashMap : gmap string string)
    (changedItems : list string) (stats : Compilation) :
  (∀ k, k ∈ changedItems → k ∈ (trackPageChanges pageHashMap changedItems stats).2)
  ∧ (NoDup changedItems → NoDup (trackPageChanges pageHashMap changedItems stats).2)
  ∧ (∀ k, k ∈ (trackPageChanges pageHashMap changedItems stats).2 →
          k ∉ changedItems →
          startsWith "pages/" k = true ∧ k ∈ (comp_entrypoints stats).*1)
  ∧ (∀ k, k ∉ (page_hashes stats).*1 →
          (trackPageChanges pageHashMap changedItems stats).1 !! k = pageHashMap !! k).
Proof.
  rewrite trackPageChanges_record_hash.
  destruct (record_hash_keeps (page_hashes stats) pageHashMap changedItems)
    as (Hk & Hnd & Hnew & Hmap).
  split_and!; [done | done | | done].
  intros k [Hc | Hl]%Hnew Hnc; [done|]. by apply elem_of_page_hashes_keys.
Qed.

Lemma map_set_id (key : string) (hash : option string) (m : gmap string string) :
  m !! key = hash → map_set key hash m = m.
Proof.
  intros Hk. unfold map_set. destruct hash as [h|].
  - by apply insert_id.
  - by apply delete_id.
Qed.

Lemma strict_eq_refl (a : option string) : strict_eq a a = true.
Proof. by apply strict_eq_true. Qed.

Lemma record_hash_same (l : list (string * option string))
    (pageHashMap : gmap string string) (changedItems : list string) :
  (∀ k hash, (k, hash) ∈ l → pageHashMap !! k = hash) →
  foldl record_hash (pageHashMap, changedItems) l = (pageHashMap, changedItems).
Proof.
  induction l as [|[key hash] l IH]; intros Hsame; simpl; [done|].
  unfold record_hash at 2. simpl.
  rewrite (Hsame key hash) by left.
  rewrite strict_eq_refl, andb_false_r, map_set_id by (apply Hsame; left).
  apply IH. intros k h Hin. apply Hsame. by right.
Qed.

(** A pass that offers, for each of its page keys, the hash that the map
    retains marks nothing and leaves the map as it is. *)
Theorem trackPageChanges_same_hashes (pageHashMap : gmap string string)
    (changedItems : list string) (stats : Compilation) :
  (∀ k hash, (k, hash) ∈ page_hashes stats → pageHashMap !! k = hash) →
  trackPageChanges pageHashMap changedItems stats = (pageHashMap, changedItems).
Proof.
  intros Hsame. rewrite trackPageChanges_record_hash. by apply record_hash_same.
Qed.

(** When the page keys of a pass are distinct, the hook run a second time
    on the same pass changes nothing: a rebuild that produces the same
    hashes marks no page. *)
Theorem trackPageChanges_replay (pageHashMap : gmap string string)
    (changedItems : list string) (stats : Compilation) :
  NoDup (page_hashes stats).*1 →
  trackPageChanges (trackPageChanges pageHashMap changedItems stats).1
    (trackPageChanges pageHashMap changedItems stats).2 stats
  = trackPageChanges pageHashMap changedItems stats.
Proof.
  intros Hnd.
  destruct (trackPageChanges pageHashMap changedItems stats) as [m c] eqn:E.
  simpl. rewrite trackPageChanges_record_hash. apply record_hash_same.
  intros k hash Hin.
  destruct (record_hashes_spec (page_hashes stats) pageHashMap changedItems Hnd) as [Hmap _].
  rewrite <- trackPageChanges_record_hash, E in Hmap. simpl in Hmap.
  rewrite Hmap, (assoc_get_elem_of k hash) by done. done.
Qed.

(** ** The done hooks of the client compiler and of the multi-compiler *)

Lemma diff_covered (a b : list string) : (∀ k, k ∈ a → k ∈ b) → diff a b = [].
Proof.
  intros Hsub. unfold diff.
  assert (List.filter (fun v => negb (set_has b v)) a = []) as ->; [|done].
  induction a as [|x a IH]; simpl; [done|].
  assert (set_has b x = true) as -> by (apply set_has_true, Hsub; left).
  simpl. apply IH. intros k Hk. apply Hsub. by right.
Qed.

Lemma chunkNames_of_route (c : Compilation) (name : string) :
  name ∈ chunkNames_of c → js_truthy (getRouteFromEntrypoint name) = true.
Proof.
  unfold chunkNames_of. rewrite elem_of_new_Set, elem_of_List_filter. by intros [_ ?].
Qed.

(** The [done] hook of the client compiler publishes nothing on the first
    pass, nothing when the route-shaped chunk names are those of the
    previous pass, and so nothing when the same pass completes again.
    Every event it publishes is an [addedPage] for a chunk name of the
    pass that the previous pass did not have, with the non-empty route of
    that name as payload, or a [removedPage] for a chunk name of the
    previous pass that the pass does not have. It clears the recorded
    client failure and records the chunk names of the pass. *)
Theorem client_done_events (this : HotReloader) (stats : Stats) :
  (prevChunkNames this = None → (client_done this stats).2 = [])
  ∧ (∀ prev, prevChunkNames this = Some prev →
       (∀ k, k ∈ prev ↔ k ∈ chunkNames_of (compilation stats)) →
       (client_done this stats).2 = [])
  ∧ (client_done (client_done this stats).1 stats).2 = []
  ∧ (∀ e, e ∈ (client_done this stats).2 →
       ∃ prev name, prevChunkNames this = Some prev
         ∧ ((e = Publish (PAction "addedPage" [getRouteFromEntrypoint name])
             ∧ js_truthy (getRouteFromEntrypoint name) = true
             ∧ name ∈ chunkNames_of (compilation stats) ∧ name ∉ prev)
            ∨ (e = Publish (PAction "removedPage" [getRouteFromEntrypoint name])
               ∧ name ∈ prev ∧ name ∉ chunkNames_of (compilation stats))))
  ∧ clientError (client_done this stats).1 = None
  ∧ clientStats (client_done this stats).1 = Some stats
  ∧ prevChunkNames (client_done this stats).1 = Some (chunkNames_of (compilation stats)).
Proof.
  unfold client_done. cbn [fst snd clientError clientStats prevChunkNames with_client].
  split_and!; try done.
  - intros ->. done.
  - intros prev -> Hsame.
    rewrite !diff_covered; [done | intros k; apply Hsame | intros k; apply Hsame].
  - by rewrite !diff_covered.
  - intros e. destruct (prevChunkNames this) as [prev|]; [|by intros ?%elem_of_nil].
    intros [Hin|Hin]%elem_of_app.
    + apply list_elem_of_fmap in Hin as (name & -> & [Hn Hp]%elem_of_diff).
      exists prev, name. split; [done|]. left. split_and!; try done.
      by apply (chunkNames_of_route (compilation stats)).
    + apply list_elem_of_fmap in Hin as (name & -> & [Hp Hn]%elem_of_diff).
      exists prev, name. split; [done|]. by right.
Qed.

Lemma List_filter_nonempty {A} (f : A → bool) (l : list A) :
  Nat.ltb 0 (List.length (List.filter f l)) = true ↔ ∃ x, x ∈ l ∧ f x = true.
Proof.
  rewrite Nat.ltb_lt. split.
  - destruct (List.filter f l) as [|x l'] eqn:E; simpl; [lia|]. intros _.
    exists x. apply elem_of_List_filter. rewrite E. left.
  - intros (x & Hx). apply elem_of_List_filter in Hx.
    destruct (List.filter f l); [by apply elem_of_nil in Hx | simpl; lia].
Qed.

(** The [done] hook of the multi-compiler empties both sets of changed
    pages and leaves the two hash maps; [middlewareChanges] is published
    exactly when a changed client page matches the middleware route; and
    the hook fired again with no pass in between publishes nothing. *)
Theorem multi_done_resets (tr : Tracker) :
  changedClientPages (multi_done tr).1 = []
  ∧ changedServerPages (multi_done tr).1 = []
  ∧ prevClientPageHashes (multi_done tr).1 = prevClientPageHashes tr
  ∧ prevServerPageHashes (multi_done tr).1 = prevServerPageHashes tr
  ∧ (Publish (PObject "middlewareChanges" None) ∈ (multi_done tr).2
     ↔ ∃ name, name ∈ changedClientPages tr ∧ MIDDLEWARE_ROUTE name = true)
  ∧ (multi_done (multi_done tr).1).2 = [].
Proof.
  split_and!; try done.
  rewrite multi_done_events, <- List_filter_nonempty.
  destruct (Nat.ltb 0 _).
  - split; [done|]. intros _. apply elem_of_app. left. left.
  - split; [|done]. intros [Hin|Hin]%elem_of_app; [by apply elem_of_nil in Hin|].
    destruct (difference _ _); [by apply elem_of_nil in Hin|].
    apply list_elem_of_singleton in Hin. discriminate.
Qed.

(** ** run *)

Lemma run_middlewares_all_next (fns : list Middleware) (index : nat) (req : Request) :
  (∀ fn, fn ∈ fns → fn req = Resolved tt) →
  run_middlewares fns index req
  = (map CallMiddleware (seq index (List.length fns)), Resolved tt).
Proof.
  revert index. induction fns as [|fn fns IH]; intros index Hall; simpl; [done|].
  rewrite (Hall fn) by left. simpl.
  rewrite IH by (intros f Hf; apply Hall; by right). done.
Qed.

Lemma run_middlewares_error (pre post : list Middleware) (fn : Middleware)
    (index : nat) (req : Request) (err : JsValue) :
  (∀ f, f ∈ pre → f req = Resolved tt) →
  fn req = Rejected err →
  run_middlewares (pre ++ fn :: post) index req
  = (map CallMiddleware (seq index (S (List.length pre))), Rejected err).
Proof.
  revert index. induction pre as [|f pre IH]; intros index Hall Hfn; simpl.
  - by rewrite Hfn.
  - rewrite (Hall f) by left. simpl.
    rewrite IH by (try done; intros g Hg; apply Hall; by right). done.
Qed.

(** Past the preflight test, [run] calls the middlewares in order after
    the page-bundle gate, also when the gate has already written an error
    response. When each of them calls [next()] the result is the gate's;
    the first one that calls [next(err)] makes [run] reject with [err],
    whatever the gate returned, and the middlewares after it are not
    called. When the gate itself throws no middleware is called. *)
Theorem run_after_cors_middlewares (this : HotReloader) (req : Request)
    (pathname : option string) :
  (∀ t finished, handlePageBundleRequest this pathname = (t, Resolved finished) →
     (∀ fn, fn ∈ middlewares this → fn req = Resolved tt) →
     run_after_cors this req pathname
     = (t ++ map CallMiddleware (seq 0 (List.length (middlewares this))),
        Resolved finished))
  ∧ (∀ t finished pre fn post err,
       handlePageBundleRequest this pathname = (t, Resolved finished) →
       middlewares this = pre ++ fn :: post →
       (∀ f, f ∈ pre → f req = Resolved tt) →
       fn req = Rejected err →
       run_after_cors this req pathname
       = (t ++ map CallMiddleware (seq 0 (S (List.length pre))), Rejected err))
  ∧ (∀ t reason, handlePageBundleRequest this pathname = (t, Rejected reason) →
       run_after_cors this req pathname = (t, Rejected reason)).
Proof.
  unfold run_after_cors. split_and!.
  - intros t finished -> Hall. rewrite bind_trace.
    rewrite run_middlewares_all_next by done. simpl. by rewrite app_nil_r.
  - intros t finished pre fn post err -> -> Hall Hfn. rewrite bind_trace.
    by rewrite (run_middlewares_error pre post fn 0 req err).
  - intros t reason ->. done.
Qed.

(** ** The page-bundle gate *)

Lemma ensurePage_trace (this : HotReloader) (page : string) (clientOnly : bool) :
  (ensurePage this page clientOnly).1 = []
  ∨ (ensurePage this page clientOnly).1 = [OnDemandEnsurePage page clientOnly].
Proof.
  unfold ensurePage, ensurePage_unblocked.
  destruct (negb _ && _); [by left|].
  destruct (if clientOnly then clientError this
            else match serverError this with
                 | Some e => Some e
                 | None => clientError this
                 end); [by left|].
  destruct (onDemandEntries this) as [ode|]; [|by left].
  right. simpl. by destruct (ode_ensurePage ode page clientOnly).
Qed.

(** All that the gate does on a request is at most one call of the
    on-demand entry handler, always with [clientOnly = true], followed by
    at most one error response, in which case the result is
    [finished = true]. It publishes nothing, calls no middleware and
    writes no other header. *)
Theorem gate_trace_shape (this : HotReloader) (pathname : option string) :
  ∃ calls writes,
    (handlePageBundleRequest this pathname).1 = calls ++ writes
    ∧ (calls = [] ∨ ∃ page, calls = [OnDemandEnsurePage page true])
    ∧ (writes = []
       ∨ ∃ error verbose,
           writes = (renderScriptError error verbose).1
           ∧ (handlePageBundleRequest this pathname).2 = Resolved true).
Proof.
  unfold handlePageBundleRequest.
  destruct (matchNextPageBundleRequest pathname) as [path|];
    [|exists [], []; split_and!; auto].
  destruct (decode_params path) as [decoded|]; [|exists [], []; split_and!; auto].
  set (page := denormalizePagePath _).
  destruct (String.eqb page "/_error" || negb (is_blocked page));
    [|exists [], []; split_and!; auto].
  rewrite ensure_and_check_cases.
  pose proof (ensurePage_trace this page true) as Ht.
  destruct (ensurePage this page true) as [t c]. simpl in Ht.
  assert (t = [] ∨ ∃ p, t = [OnDemandEnsurePage p true]) as Hcalls.
  { destruct Ht as [->| ->]; [by left | right; by eexists]. }
  destruct c as [[]|error|].
  - destruct (getCompilationErrors this page) as [[|error errors]|r|].
    + exists t, []. rewrite app_nil_r. split_and!; auto.
    + exists t, (renderScriptError error false).1. split_and!; [done|done|].
      right. by exists error, false.
    + exists t, []. rewrite app_nil_r. split_and!; auto.
    + exists t, []. rewrite app_nil_r. split_and!; auto.
  - exists t, (renderScriptError (as_error error) true).1. split_and!; [done|done|].
    right. by exists (as_error error), true.
  - exists t, []. rewrite app_nil_r. split_and!; auto.
Qed.

(** ** Compiler failures and the gate *)

Lemma called_not_blocked (page : string) :
  String.eqb page "/_error" || negb (is_blocked page) = true →
  negb (String.eqb page "/_error") && is_blocked page = false.
Proof. by destruct (String.eqb page "/_error"), (is_blocked page). Qed.

(** After the client compiler has failed with [err], a request for the
    bundle of a page that is [/_error] or not blocked gets
    [finished = true] and the error response for [err] taken as an
    [Error]: when its code is [ENOENT], the status 404 and nothing on the
    console; otherwise, and so for every failure that is not an [Error],
    its stack on the console and then the status 500. The on-demand entry
    handler is not called, and the next completed client pass clears the
    failure. *)
Theorem client_failure_fails_bundle_requests (this : HotReloader) (err : JsValue)
    (pathname : option string) (path decoded : list string) :
  matchNextPageBundleRequest pathname = Some path →
  decode_params path = Some decoded →
  String.eqb (denormalizePagePath ("/" +:+ String.concat "/" decoded)) "/_error"
  || negb (is_blocked (denormalizePagePath ("/" +:+ String.concat "/" decoded))) = true →
  (handlePageBundleRequest (client_failed this err) pathname).2 = Resolved true
  ∧ (err_code (as_error err) = Some "ENOENT" →
       (handlePageBundleRequest (client_failed this err) pathname).1
       = [ SetHeader "Cache-Control" "no-cache, no-store, max-age=0, must-revalidate";
           SetStatusCode 404;
           ResEnd (Some "404 - Not Found") ])
  ∧ (err_code (as_error err) ≠ Some "ENOENT" →
       (handlePageBundleRequest (client_failed this err) pathname).1
       = [ SetHeader "Cache-Control" "no-cache, no-store, max-age=0, must-revalidate";
           ConsoleError (err_stack (as_error err));
           SetStatusCode 500;
           ResEnd (Some "500 - Internal Error") ])
  ∧ (err_isError err = false → err_code (as_error err) ≠ Some "ENOENT")
  ∧ (∀ page clientOnly,
       OnDemandEnsurePage page clientOnly
       ∉ (handlePageBundleRequest (client_failed this err) pathname).1)
  ∧ response_writes (handlePageBundleRequest (client_failed this err) pathname).1
    = error_response (as_error err)
  ∧ (∀ stats, clientError (client_done (client_failed this err) stats).1 = None).
Proof.
  intros Hm Hd Hc.
  assert (handlePageBundleRequest (client_failed this err) pathname
          = ((renderScriptError (as_error err) true).1, Resolved true)) as Hgate.
  { rewrite (handlePageBundleRequest_decoded _ _ path decoded) by done.
    cbv zeta. rewrite Hc, ensure_and_check_cases.
    unfold ensurePage. rewrite called_not_blocked by done.
    unfold ensurePage_unblocked. reflexivity. }
  rewrite Hgate. cbn [fst snd]. split_and!.
  - done.
  - intros Hcode%strict_eq_true. unfold renderScriptError. by rewrite Hcode.
  - intros Hcode%strict_eq_false. unfold renderScriptError. by rewrite Hcode.
  - intros Hne. unfold as_error. by rewrite Hne.
  - intros page clientOnly. unfold renderScriptError.
    destruct (strict_eq _ _); simpl; intros Hin;
      repeat (apply elem_of_cons in Hin as [Hin|Hin]; [done|]);
      by apply elem_of_nil in Hin.
  - apply renderScriptError_writes.
  - done.
Qed.

(** After the server compiler has failed with [err], with no client
    failure on record, the gate's call of [ensurePage] goes on as before
    the failure (it looks at the client's failure only); when it resolves,
    the request is answered with the error response for [err], not logged,
    with [finished = true]. *)
Theorem server_failure_fails_bundle_requests (this : HotReloader) (err : JsValue)
    (pathname : option string) (path decoded : list string) (t : list Effect) :
  clientError this = None →
  matchNextPageBundleRequest pathname = Some path →
  decode_params path = Some decoded →
  String.eqb (denormalizePagePath ("/" +:+ String.concat "/" decoded)) "/_error"
  || negb (is_blocked (denormalizePagePath ("/" +:+ String.concat "/" decoded))) = true →
  ensurePage this (denormalizePagePath ("/" +:+ String.concat "/" decoded)) true
  = (t, Resolved tt) →
  ensurePage (server_failed this err)
    (denormalizePagePath ("/" +:+ String.concat "/" decoded)) true
  = (t, Resolved tt)
  ∧ handlePageBundleRequest (server_failed this err) pathname
    = (t ++ (renderScriptError err false).1, Resolved true)
  ∧ response_writes (handlePageBundleRequest (server_failed this err) pathname).1
    = error_response err
  ∧ (∀ stack, ConsoleError stack ∉ (handlePageBundleRequest (server_failed this err) pathname).1).
Proof.
  intros Hce Hm Hd Hc He.
  set (page := denormalizePagePath ("/" +:+ String.concat "/" decoded)) in *.
  assert (ensurePage (server_failed this err) page true = (t, Resolved tt)) as He'.
  { rewrite <- He. reflexivity. }
  assert (handlePageBundleRequest (server_failed this err) pathname
          = (t ++ (renderScriptError err false).1, Resolved true)) as Hgate.
  { rewrite (handlePageBundleRequest_decoded _ _ path decoded) by done.
    cbv zeta. fold page. rewrite Hc, ensure_and_check_cases, He'.
    unfold getCompilationErrors, server_failed.
    cbn [clientError serverError with_server]. by rewrite Hce. }
  pose proof (ensurePage_no_writes this page true) as Hnw. rewrite He in Hnw. simpl in Hnw.
  pose proof (ensurePage_trace this page true) as Ht. rewrite He in Ht. simpl in Ht.
  split_and!; [done | done | |].
  - rewrite Hgate. cbn [fst].
    by rewrite response_writes_app, Hnw, renderScriptError_writes.
  - intros stack. rewrite Hgate. cbn [fst]. intros [Hin|Hin]%elem_of_app.
    + destruct Ht as [-> | ->]; [by apply elem_of_nil in Hin|].
      apply list_elem_of_singleton in Hin. discriminate.
    + unfold renderScriptError in Hin.
      destruct (strict_eq (err_code err) (Some "ENOENT")); simpl in Hin;
        repeat (apply elem_of_cons in Hin as [Hin|Hin]; [discriminate|]);
        by apply elem_of_nil in Hin.
Qed.

(** When the client target has errors, with no compile-level failure on
    record, [getCompilationErrors] returns a non-empty list for every
    page, also for a page that none of the errors belongs to: the gate
    then answers every bundle request whose [ensurePage] resolves with an
    error response and [finished = true]. *)
Theorem any_client_error_fails_every_page (this : HotReloader) (stats : Stats) :
  clientError this = None →
  serverError this = None →
  clientStats this = Some stats →
  hasErrors stats = true →
  comp_errors (compilation stats) ≠ [] →
  attribution_resolves (compilation stats) →
  (∀ page, ∃ error errors,
     getCompilationErrors this page = Resolved (error :: errors)
     ∧ (error :: errors = attributed (compilation stats) (normalizePathSep page)
        ∨ (attributed (compilation stats) (normalizePathSep page) = []
           ∧ error :: errors = comp_errors (compilation stats))))
  ∧ (∀ pathname path decoded t,
       matchNextPageBundleRequest pathname = Some path →
       decode_params path = Some decoded →
       String.eqb (denormalizePagePath ("/" +:+ String.concat "/" decoded)) "/_error"
       || negb (is_blocked (denormalizePagePath ("/" +:+ String.concat "/" decoded))) = true →
       ensurePage this (denormalizePagePath ("/" +:+ String.concat "/" decoded)) true
       = (t, Resolved tt) →
       (handlePageBundleRequest this pathname).2 = Resolved true).
Proof.
  intros Hce Hse Hcs Hhas Hne Hres.
  assert (∀ page, ∃ error errors,
            getCompilationErrors this page = Resolved (error :: errors)
            ∧ (error :: errors = attributed (compilation stats) (normalizePathSep page)
               ∨ (attributed (compilation stats) (normalizePathSep page) = []
                  ∧ error :: errors = comp_errors (compilation stats)))) as Hall.
  { intros page. unfold getCompilationErrors. rewrite Hce, Hse, Hcs. simpl. rewrite Hhas.
    rewrite errors_of_target_resolved by done. unfold target_errors.
    destruct (attributed (compilation stats) (normalizePathSep page)) as [|e es] eqn:Ea.
    - destruct (comp_errors (compilation stats)) as [|e es]; [done|].
      exists e, es. split; [done|]. by right.
    - exists e, es. split; [done|]. by left. }
  split; [exact Hall|].
  intros pathname path decoded t Hm Hd Hc He.
  rewrite (handlePageBundleRequest_decoded _ _ path decoded) by done.
  cbv zeta. rewrite Hc, ensure_and_check_cases, He.
  destruct (Hall (denormalizePagePath ("/" +:+ String.concat "/" decoded)))
    as (error & errors & -> & _). done.
Qed.

(** ** stop *)

Lemma awaited_calls_watcher (n : nat) :
  fallbackWatcher (awaited_calls (S n) fallback_initial) = true.
Proof.
  cbn [awaited_calls]. rewrite awaited_call_builds by done.
  by destruct (awaited_calls_after_build n
                 {| fallbackWatcher := true;
                    calls := calls fallback_initial ++ [Returned];
                    configsRequested := S (configsRequested fallback_initial);
                    compilersStarted := S (compilersStarted fallback_initial) |} eq_refl)
    as (? & _).
Qed.

(** [stop] closes the watcher of the multi-compiler and resolves when no
    fallback was built. Once [buildFallbackError] has completed, so after
    any number of awaited calls of it, [stop] rejects with a [TypeError]
    after the first watcher has closed: the field holds [true], not a
    watcher, and the fallback compiler's watcher is never closed. An
    error of the first [close] rejects [stop] as it is, and before
    [start] has assigned the watcher [stop] throws at once. *)
Theorem stop_after_fallback_rejects (fallback : FallbackState) :
  (fallbackWatcher fallback = false →
     stop (Some (Resolved tt)) fallback = ([WatcherClose], Resolved tt))
  ∧ (fallbackWatcher fallback = true →
       stop (Some (Resolved tt)) fallback
       = ([WatcherClose],
          Rejected (TypeError "this.fallbackWatcher.close is not a function")))
  ∧ (∀ n, stop (Some (Resolved tt)) (awaited_calls (S n) fallback_initial)
          = ([WatcherClose],
             Rejected (TypeError "this.fallbackWatcher.close is not a function")))
  ∧ (∀ err, stop (Some (Rejected err)) fallback = ([WatcherClose], Rejected err))
  ∧ (∃ message, stop None fallback = ([], Rejected (TypeError message))).
Proof.
  split_and!.
  - intros Hw. unfold stop. by rewrite Hw.
  - intros Hw. unfold stop. by rewrite Hw.
  - intros n. unfold stop. by rewrite awaited_calls_watcher.
  - done.
  - by eexists.
Qed.

(** ** The entry functions of a pass *)

Lemma elem_of_registry_keys (registry : gmap string EntryData) (k : string) :
  k ∈ map fst (map_to_list registry) ↔ is_Some (registry !! k).
Proof.
  change (map fst (map_to_list registry)) with ((map_to_list registry).*1).
  rewrite list_elem_of_fmap. split.
  - intros ([k' e] & -> & Hin%elem_of_map_to_list). by exists e.
  - intros [e He]. exists (k, e). split; [done|]. by apply elem_of_map_to_list.
Qed.

(** The registry after [config.entry], read at any key. *)
Lemma config_entry_lookup (this : HotReloader) (config : WebpackConfig)
    (registry : gmap string EntryData) (ssr : gmap string bool)
    (defaultEntrypoints : gmap string EntryPoint) (k : string) :
  entries (config_entry this config registry ssr defaultEntrypoints) !! k
  = registry !! k ≫= entry_fate this config k.
Proof.
  unfold config_entry. rewrite inject_entries_lookup. cbn [entries].
  destruct (decide (k ∈ map fst (map_to_list registry))) as [Hin|Hnin]; [done|].
  destruct (registry !! k) as [e|] eqn:E; [|done].
  destruct Hnin. apply elem_of_registry_keys. by exists e.
Qed.

Lemma entry_fate_Some (this : HotReloader) (config : WebpackConfig) (k : string)
    (entry entry' : EntryData) :
  entry_fate this config k entry = Some entry' →
  entry' = entry ∨ entry' = with_status entry BUILDING.
Proof.
  unfold entry_fate. destruct (reaches_existence_test config k); [|intros [= <-]; by left].
  destruct (_ || _); [done|].
  destruct (left_to_server_web this config k); intros [= <-]; auto.
Qed.

(** The [entry] function of a configuration adds no key to the registry
    and changes nothing of an entry but its status, which it leaves or
    sets to [BUILDING]; called again on the registry it has produced, it
    leaves that registry as it is. *)
Theorem config_entry_registry (this : HotReloader) (config : WebpackConfig)
    (registry : gmap string EntryData) (ssr ssr' : gmap string bool)
    (defaultEntrypoints defaultEntrypoints' : gmap string EntryPoint) :
  (∀ k entry',
     entries (config_entry this config registry ssr defaultEntrypoints) !! k = Some entry' →
     ∃ entry, registry !! k = Some entry
       ∧ bundlePath entry' = bundlePath entry
       ∧ absolutePagePath entry' = absolutePagePath entry
       ∧ dispose entry' = dispose entry
       ∧ (status entry' = status entry ∨ status entry' = BUILDING))
  ∧ entries (config_entry this config
               (entries (config_entry this config registry ssr defaultEntrypoints))
               ssr' defaultEntrypoints')
    = entries (config_entry this config registry ssr defaultEntrypoints).
Proof.
  split.
  - intros k entry'. rewrite config_entry_lookup.
    destruct (registry !! k) as [entry|]; [|done]. simpl.
    intros [-> | ->]%entry_fate_Some; exists entry; split_and!; auto.
  - apply map_eq. intros k. rewrite !config_entry_lookup.
    destruct (registry !! k) as [entry|]; [|done]. simpl. apply entry_fate_idemp.
Qed.

Lemma run_entry_functions_lookup (this : HotReloader)
    (configs : list (WebpackConfig * gmap string EntryPoint))
    (registry : gmap string EntryData) (ssr : gmap string bool) (k : string) :
  (run_entry_functions this configs registry ssr).1.1 !! k
  = foldl (fun entry config => entry ≫= entry_fate this config.1 k) (registry !! k) configs.
Proof.
  revert registry ssr. induction configs as [|[config defaults] configs IH];
    intros registry ssr; simpl; [done|].
  specialize (IH (entries (config_entry this config registry ssr defaults))
                (ssrEntries (config_entry this config registry ssr defaults))).
  destruct (run_entry_functions this configs _ _) as [[registry' ssr'] results].
  simpl in *. by rewrite IH, config_entry_lookup.
Qed.

Lemma reaches_client (config : WebpackConfig) (k : string) :
  cfg_name config = Some "client" →
  reaches_existence_test config k
  = startsWith "client" k
    && negb (API_ROUTE (js_slice 6 k) && negb (MIDDLEWARE_ROUTE (js_slice 6 k))).
Proof.
  intros Hn. unfold reaches_existence_test. rewrite Hn. rewrite strict_eq_refl.
  by destruct (startsWith "client" k), (API_ROUTE _), (MIDDLEWARE_ROUTE _).
Qed.

Lemma reaches_server_side (config : WebpackConfig) (k : string) :
  cfg_name config ≠ Some "client" →
  reaches_existence_test config k
  = negb (startsWith "client" k) && negb (MIDDLEWARE_ROUTE (js_slice 6 k)).
Proof.
  intros Hn%strict_eq_false. unfold reaches_existence_test. rewrite Hn.
  by destruct (startsWith "client" k), (API_ROUTE _), (MIDDLEWARE_ROUTE _).
Qed.

(** Over the configurations of a pass, named [client], [server] and
    [server-web], every registry entry that is a client-side page or
    middleware, or a server-side page or API route, is settled by the
    [entry] functions together: removed when it is marked for disposal or
    its source file is gone, and set to [BUILDING] when its source
    exists, with or without the web server runtime. *)
Theorem pass_settles_entries (this : HotReloader)
    (client server serverWeb : WebpackConfig)
    (defaults : list (gmap string EntryPoint))
    (registry : gmap string EntryData) (ssr : gmap string bool)
    (pageKey : string) (entry : EntryData) :
  cfg_name client = Some "client" →
  cfg_name server = Some "server" →
  cfg_name serverWeb = Some "server-web" →
  List.length defaults = 3 →
  registry !! pageKey = Some entry →
  reaches_existence_test client pageKey = true
  ∨ reaches_existence_test server pageKey = true →
  (dispose entry = true ∨ fileExists (absolutePagePath entry) = false →
     (run_entry_functions this
        (zip (getWebpackConfig this client server serverWeb) defaults) registry ssr).1.1
     !! pageKey = None)
  ∧ (dispose entry = false → fileExists (absolutePagePath entry) = true →
       (run_entry_functions this
          (zip (getWebpackConfig this client server serverWeb) defaults) registry ssr).1.1
       !! pageKey = Some (with_status entry BUILDING)).
Proof.
  intros Hc Hs Hw Hlen Hk Hreach.
  destruct defaults as [|d1 [|d2 [|d3 [|? ?]]]]; try done.
  rewrite run_entry_functions_lookup, Hk.
  assert (cfg_name server ≠ Some "client") as Hs' by (by rewrite Hs).
  assert (cfg_name serverWeb ≠ Some "client") as Hw' by (by rewrite Hw).
  pose proof (reaches_client client pageKey Hc) as Rc.
  pose proof (reaches_server_side server pageKey Hs') as Rs.
  pose proof (reaches_server_side serverWeb pageKey Hw') as Rw.
  assert (left_to_server_web this client pageKey = false) as Lc.
  { unfold left_to_server_web. by rewrite Hc. }
  assert (left_to_server_web this serverWeb pageKey = false) as Lw.
  { unfold left_to_server_web. by rewrite Hw. }
  assert (left_to_server_web this server pageKey
          = webServerRuntime this && negb (API_ROUTE (js_slice 6 pageKey))) as Ls.
  { unfold left_to_server_web. by rewrite Hs, strict_eq_refl. }
  rewrite Rc, Rs in Hreach.
  unfold getWebpackConfig.
  split.
  - intros Hgone.
    assert (dispose entry || negb (fileExists (absolutePagePath entry)) = true) as Hg.
    { destruct Hgone as [-> | ->]; [done | by rewrite orb_true_r]. }
    destruct (webServerRuntime this); simpl; unfold entry_fate;
      rewrite Rc, Rs, ?Rw, Hg;
      destruct (startsWith "client" pageKey), (API_ROUTE (js_slice 6 pageKey)),
        (MIDDLEWARE_ROUTE (js_slice 6 pageKey)); simpl in *;
      rewrite ?Hg; first [done | by destruct Hreach].
  - intros Hd Hf.
    assert (dispose entry || negb (fileExists (absolutePagePath entry)) = false) as Hg.
    { by rewrite Hd, Hf. }
    destruct (webServerRuntime this) eqn:Hwsr; simpl; unfold entry_fate;
      rewrite Rc, Rs, ?Rw, Lc, Ls, ?Lw, Hg;
      destruct (startsWith "client" pageKey), (API_ROUTE (js_slice 6 pageKey)),
        (MIDDLEWARE_ROUTE (js_slice 6 pageKey)); simpl in *;
      rewrite ?Hg, ?Rw, ?Lw; simpl; rewrite ?Hg; simpl;
      first [done | by destruct Hreach].
Qed.



Lemma inject_entry_entrypoints_origin (this : HotReloader) (config : WebpackConfig)
    (st : PassState) (k : string) :
  entrypoints (inject_entry this config st k) = entrypoints st
  ∨ ∃ e ep, entries st !! k = Some e
      ∧ entrypoints (inject_entry this config st k) = <[bundlePath e := ep]> (entrypoints st).
Proof.
  unfold inject_entry. rewrite ?key_page_length.
  destruct (entries st !! k) as [e|];
    repeat match goal with
           | |- context [if ?b then _ else _] => destruct b; simpl; eauto
           end.
Qed.

Lemma inject_entry_ssrEntries (this : HotReloader) (config : WebpackConfig)
    (st : PassState) (k : string) :
  (cfg_name config ≠ Some "client"
   ∨ (webServerRuntime this = false ∧ hasServerComponents this = false) →
   ssrEntries (inject_entry this config st k) = ssrEntries st)
  ∧ (∀ b, is_Some (ssrEntries st !! b) →
          is_Some (ssrEntries (inject_entry this config st k) !! b)).
Proof.
  unfold inject_entry. rewrite ?key_page_length. split.
  - intros [Hc%strict_eq_false | [Hw Hs]]; rewrite ?Hc, ?Hw, ?Hs;
      destruct (entries st !! k) as [e|];
      repeat match goal with
             | |- context [if ?b then _ else _] => destruct b; simpl; eauto
             end.
  - intros b Hb. destruct (entries st !! k) as [e|];
      repeat match goal with
             | |- context [if ?b then _ else _] => destruct b; simpl; eauto
             end;
      rewrite lookup_insert_is_Some;
      match goal with |- ?x = b ∨ _ => destruct (decide (x = b)); auto end.
Qed.

Lemma inject_entries_frame (this : HotReloader) (config : WebpackConfig)
    (registry : gmap string EntryData) (defaults : gmap string EntryPoint)
    (keys : list string) (st : PassState) :
  (∀ k e, entries st !! k = Some e →
     ∃ e0, registry !! k = Some e0 ∧ bundlePath e = bundlePath e0) →
  (∀ b, is_Some (entrypoints st !! b) →
     is_Some (defaults !! b) ∨ ∃ k e0, registry !! k = Some e0 ∧ bundlePath e0 = b) →
  ∀ b, is_Some (entrypoints (inject_entries this config keys st) !! b) →
    is_Some (defaults !! b) ∨ ∃ k e0, registry !! k = Some e0 ∧ bundlePath e0 = b.
Proof.
  unfold inject_entries. revert st.
  induction keys as [|k keys IH]; intros st Hreg Heps; simpl; [done|].
  apply IH.
  - intros k' e'. rewrite inject_entry_lookup.
    destruct (decide (k = k')) as [<-|]; [|apply Hreg].
    destruct (entries st !! k) as [e|] eqn:E; [|done]. simpl.
    destruct (Hreg k e E) as (e0 & He0 & Hb).
    intros [-> | ->]%entry_fate_Some; exists e0; done.
  - intros b. destruct (inject_entry_entrypoints_origin this config st k)
      as [-> | (e & ep & He & ->)]; [apply Heps|].
    rewrite lookup_insert_is_Some. intros [<- | [_ Hb]]; [|by apply Heps].
    right. destruct (Hreg k e He) as (e0 & He0 & Hbp). exists k, e0. by rewrite <- Hbp.
Qed.

Lemma inject_entries_ssrEntries (this : HotReloader) (config : WebpackConfig)
    (keys : list string) (st : PassState) :
  (cfg_name config ≠ Some "client"
   ∨ (webServerRuntime this = false ∧ hasServerComponents this = false) →
   ssrEntries (inject_entries this config keys st) = ssrEntries st)
  ∧ (∀ b, is_Some (ssrEntries st !! b) →
          is_Some (ssrEntries (inject_entries this config keys st) !! b)).
Proof.
  unfold inject_entries. revert st. induction keys as [|k keys IH]; intros st; simpl;
    [done|].
  destruct (IH (inject_entry this config st k)) as [IHf IHm].
  destruct (inject_entry_ssrEntries this config st k) as [Hf Hm].
  split.
  - intros Hcond. by rewrite IHf, Hf.
  - intros b Hb. by apply IHm, Hm.
Qed.

(** The [entry] function of a configuration never drops an entrypoint
    that [defaultEntry] returned, and every entrypoint it returns is one
    of those or sits at the bundle path of a registry entry. It never
    removes a key of [ssrEntries], and leaves [ssrEntries] untouched in
    every configuration but [client], and in all of them for a reloader
    constructed without [concurrentFeatures]. *)
Theorem entry_function_frame (this : HotReloader) (config : WebpackConfig)
    (registry : gmap string EntryData) (ssr : gmap string bool)
    (defaultEntrypoints : gmap string EntryPoint) :
  (∀ b, is_Some (defaultEntrypoints !! b) →
     is_Some (entrypoints (config_entry this config registry ssr defaultEntrypoints) !! b))
  ∧ (∀ b, is_Some (entrypoints (config_entry this config registry ssr defaultEntrypoints) !! b) →
       is_Some (defaultEntrypoints !! b)
       ∨ ∃ k entry, registry !! k = Some entry ∧ bundlePath entry = b)
  ∧ (∀ b, is_Some (ssr !! b) →
       is_Some (ssrEntries (config_entry this config registry ssr defaultEntrypoints) !! b))
  ∧ (cfg_name config ≠ Some "client" →
       ssrEntries (config_entry this config registry ssr defaultEntrypoints) = ssr)
  ∧ (∀ serverComponents,
       ssrEntries (config_entry (new_HotReloader false serverComponents) config
                     registry ssr defaultEntrypoints) = ssr).
Proof.
  unfold config_entry. split_and!.
  - intros b Hb. by apply inject_entries_entrypoints_mono.
  - apply (inject_entries_frame this config registry defaultEntrypoints).
    + intros k e He. by exists e.
    + intros b Hb. by left.
  - intros b Hb.
    by apply (proj2 (inject_entries_ssrEntries this config (map fst (map_to_list registry))
                       {| entries := registry;
                          entrypoints := defaultEntrypoints;
                          ssrEntries := ssr |})).
  - intros Hc.
    apply (proj1 (inject_entries_ssrEntries this config (map fst (map_to_list registry))
                    {| entries := registry;
                       entrypoints := defaultEntrypoints;
                       ssrEntries := ssr |})).
    by left.
  - intros serverComponents.
    apply (proj1 (inject_entries_ssrEntries (new_HotReloader false serverComponents)
                    config (map fst (map_to_list registry))
                    {| entries := registry;
                       entrypoints := defaultEntrypoints;
                       ssrEntries := ssr |})).
    by right.
Qed.

End FurtherProperties.

(** * Concrete runs *)


(** C10 at the fixture's blocked pages, on a started reloader and on one
    whose client compiler has failed: [/_app] is passed over, [/_error]
    reaches the on-demand entry handler and the recorded failure. *)
Lemma error_page_exempt_from_blocking_witness :
  "/_error" ∈ @BLOCKED_PAGES (fixture 100)
  ∧ @ensurePage (fixture 100) started "/_app" true = ([], Resolved tt)
  ∧ @ensurePage (fixture 100) started "/_error" true
    = ([OnDemandEnsurePage "/_error" true], Resolved tt)
  ∧ @handlePageBundleRequest (fixture 100) started
      (Some "/_next/static/chunks/pages/_app.js")
    = ([], Resolved false)
  ∧ @handlePageBundleRequest (fixture 100) started
      (Some "/_next/static/chunks/pages/_error.js")
    = ([OnDemandEnsurePage "/_error" true], Resolved false)
  ∧ @ensurePage (fixture 100) client_failed_missing "/_error" true
    = ([], Rejected file_missing).
Proof.
  assert ("/_error" ∈ @BLOCKED_PAGES (fixture 100)) as Hin by (repeat constructor).
  split; [exact Hin|].
  destruct (@error_page_exempt_from_blocking (fixture 100) started Hin)
    as (_ & Hother & Hgate_other & _ & _ & _ & Hcalls & _ & Hgate).
  destruct (@error_page_exempt_from_blocking (fixture 100) client_failed_missing Hin)
    as (_ & _ & _ & Hfailed & _).
  split_and!.
  - apply Hother; [repeat constructor | discriminate].
  - apply (Hcalls {| ode_ensurePage := fun _ _ => Resolved tt |} true); reflexivity.
  - apply (Hgate_other _ ["_app"] ["_app"]);
      [reflexivity | reflexivity | repeat constructor | discriminate].
  - destruct (Hgate (Some "/_next/static/chunks/pages/_error.js") ["_error"] ["_error"]
                eq_refl eq_refl eq_refl) as (_ & Hstarted & _).
    by rewrite (Hstarted {| ode_ensurePage := fun _ _ => Resolved tt |} eq_refl eq_refl).
  - by apply Hfailed.
Defined.

(** C7 at the chain of [about_modules]: two links from module [0] to the
    entry module [2], three stack frames. *)
Lemma findEntryModule_returns_root_witness :
  @findEntryModule (fixture 100) 3 about_modules 0 = Resolved 2.
Proof.
  assert (issuer_chain about_modules 0 2 2) as Hchain.
  { apply (chain_link _ 0 1); [reflexivity|].
    apply (chain_link _ 1 2); [reflexivity|].
    apply chain_root. reflexivity. }
  apply (@findEntryModule_returns_root (fixture 100) about_modules 0 2 2 Hchain). lia.
Defined.

(** C2 at a pass in which [/about] has a new hash. *)
Lemma page_changes_between_passes_witness :
  "pages/about"
  ∈ (trackPageChanges {["pages/about" := "h1"]} [] (compilation (pass_with_about "h2"))).2.
Proof.
  assert (NoDup (page_hashes (compilation (pass_with_about "h2"))).*1) as Hnd.
  { change (NoDup ["pages/about"]). apply NoDup_singleton. }
  destruct (@page_changes_between_passes (fixture 100) {["pages/about" := "h1"]}
              ["pages/about"] (compilation (pass_with_about "h2")) Hnd)
    as (_ & _ & Hchanged & _).
  apply Hchanged. exists "h1", (Some "h2").
  split_and!; [reflexivity | discriminate | repeat constructor | discriminate].
Defined.

(** The claim of C2 fails when a page leaves and comes back: [/about] is
    built with hash [h1], then disposed (a pass without it), then built
    again with hash [h2]. On the third pass the previous pass has no hash
    for [pages/about] and its chunk names do not have it, so the page is
    added; the hash map still holds [h1], so the page is also marked
    changed. *)
Lemma changed_page_absent_from_previous_pass :
  page_hashes (compilation pass_without_pages) = []
  ∧ prevChunkNames
      (client_pass 100 (client_pass 100 (fresh, tracker_initial) (pass_with_about "h1"))
         pass_without_pages).1
    = Some []
  ∧ changedClientPages
      (client_emit
         (client_pass 100 (client_pass 100 (fresh, tracker_initial) (pass_with_about "h1"))
            pass_without_pages).2
         (compilation (pass_with_about "h2")))
    = ["pages/about"]
  ∧ (@client_done (fixture 100)
       (client_pass 100 (client_pass 100 (fresh, tracker_initial) (pass_with_about "h1"))
          pass_without_pages).1
       (pass_with_about "h2")).2
    = [Publish (PAction "addedPage" [Some "/about"])].
Proof. vm_compute. done. Qed.

(** The claim of C5 fails when the page's errors are on the server target
    and the client target has errors of another page: no compile-level
    failure is recorded and [/a] has an error attributed to it, yet the
    answer for [/a] is the client's error of [/b]. *)
Lemma client_errors_shadow_page_errors :
  clientError client_b_server_a = None
  ∧ serverError client_b_server_a = None
  ∧ @attributed (fixture 100)
      (compilation (failing_stats (compile_error "server error in /a" 0))) "/a"
    = [compile_error "server error in /a" 0]
  ∧ @getCompilationErrors (fixture 100) client_b_server_a "/a"
    = Resolved [compile_error "client error in /b" 1].
Proof. vm_compute. done. Qed.

Lemma deep_modules_chain (d k : nat) :
  (k ≤ d)%nat → issuer_chain (deep_modules d) (d - k) k d.
Proof.
  induction k as [|k IH]; intros Hk.
  - rewrite Nat.sub_0_r. apply chain_root. simpl.
    by rewrite (proj2 (Nat.ltb_ge d d)) by lia.
  - apply (chain_link _ _ (d - k)).
    + simpl. rewrite (proj2 (Nat.ltb_lt (d - S k) d)) by lia. f_equal. lia.
    + apply IH. lia.
Qed.

(** The claim of C7 fails: the walk has no depth guard. On a cyclic
    issuer chain it returns no module, whatever the engine's stack budget:
    the recursion ends in the engine's [RangeError], which [erroredPages]
    lets through, so the errors are not attributed. And no depth is a
    maximum: a chain of any depth [d] is walked to its end when the stack
    has room for it. *)
Lemma findEntryModule_has_no_depth_guard :
  (∀ limit budget,
     @findEntryModule (fixture limit) budget cyclic_modules 0
     = Rejected (@RangeError (fixture limit)))
  ∧ (∀ limit,
       @erroredPages (fixture limit) cyclic_compilation
       = Rejected (@RangeError (fixture limit)))
  ∧ (∀ d, @findEntryModule (fixture 0) (S d) (deep_modules d) 0 = Resolved d).
Proof.
  assert (∀ limit budget m,
            @findEntryModule (fixture limit) budget cyclic_modules m
            = Rejected (@RangeError (fixture limit))) as Hcyc.
  { intros limit budget m. apply findEntryModule_endless. by intros [|[|?]]. }
  split_and!.
  - intros limit budget. apply Hcyc.
  - intros limit. unfold erroredPages, cyclic_compilation. cbn [comp_errors erroredPages_loop].
    unfold erroredPages_step, error_page. cbn [err_module compile_error comp_modules].
    by rewrite Hcyc.
  - intros d. pose proof (deep_modules_chain d d (le_n d)) as Hchain.
    rewrite Nat.sub_diag in Hchain.
    rewrite (@findEntryModule_chain (fixture 0) _ _ _ _ Hchain).
    rewrite decide_True; [done | lia].
Qed.



(** C1 at [/a] and [/b] changed on the server and [/b] on the client:
    the event names [/a] alone. *)
Lemma serverOnlyChanges_is_difference_witness :
  Publish (PObject "serverOnlyChanges" (Some ["/a"]))
  ∈ (@multi_done (fixture 100) changes_a_b).2.
Proof.
  destruct (@serverOnlyChanges_is_difference (fixture 100) changes_a_b)
    as (_ & _ & _ & Hpublished).
  apply Hpublished. split; [discriminate | reflexivity].
Defined.

(** C3 at a pass whose document hash differs from the one on record. *)
Lemma reloadPage_iff_document_hash_differs_witness :
  (server_done (server_run fresh [document_pass "d1"]) (document_pass "d2")).2
  = [Publish (PAction "reloadPage" [])].
Proof.
  destruct (reloadPage_iff_document_hash_differs
              (server_run fresh [document_pass "d1"]) (document_pass "d2"))
    as [_ Hchunk].
  destruct (Hchunk (page_chunk "pages/_document" "d2") eq_refl) as [_ Hrecorded].
  destruct (Hrecorded "d1" eq_refl) as (_ & _ & Hdiffers).
  apply Hdiffers. discriminate.
Defined.

(** C5 at a request for [/b] while the client bundle of [/b] fails. *)
Lemma getCompilationErrors_priority_witness :
  @getCompilationErrors (fixture 100) client_b_server_a "/b"
  = Resolved [compile_error "client error in /b" 1].
Proof.
  assert (@attribution_resolves (fixture 100)
            (compilation (failing_stats (compile_error "client error in /b" 1)))) as Hres.
  { intros error m Hin Hm. apply list_elem_of_singleton in Hin. subst error.
    injection Hm as <-. exists 0, 1. split; [by apply chain_root | simpl; lia]. }
  destruct (@getCompilationErrors_priority (fixture 100) client_b_server_a "/b")
    as (_ & _ & Hnofatal).
  destruct (Hnofatal eq_refl eq_refl) as (Hclient & _).
  rewrite (Hclient (failing_stats (compile_error "client error in /b" 1))
             eq_refl eq_refl Hres).
  reflexivity.
Defined.

(** C6 at a preflight request: the three headers, status 200, no body,
    and nothing of the gate although the client compiler has failed. *)
Lemma cors_before_any_processing_witness :
  @run (fixture 100) client_failed_missing preflight_request
    (Some "/_next/static/chunks/pages/about.js")
  = ([ SetHeader "Access-Control-Allow-Origin" "http://localhost:4000";
       SetHeader "Access-Control-Allow-Methods" "OPTIONS, GET";
       SetHeader "Access-Control-Allow-Headers" "content-type";
       WriteHead 200;
       ResEnd None ],
     Resolved false).
Proof.
  destruct (@cors_before_any_processing (fixture 100) client_failed_missing
              preflight_request (Some "/_next/static/chunks/pages/about.js"))
    as [Hcors _].
  destruct (Hcors eq_refl eq_refl) as [Hpreflight _].
  rewrite (Hpreflight eq_refl). reflexivity.
Defined.

(** [reloadPage_after_passes] at the same two passes. *)
Lemma reloadPage_after_passes_witness :
  Publish (PAction "reloadPage" [])
  ∈ (server_done (server_run fresh [document_pass "d1"]) (document_pass "d2")).2.
Proof.
  apply (reloadPage_after_passes fresh [document_pass "d1"] (document_pass "d2")
           (page_chunk "pages/_document" "d2") eq_refl eq_refl).
  exists "d1". split; [reflexivity | discriminate].
Defined.


(** [page_changes_exhaustive] at [/about] with a new hash: changed. *)
Lemma page_changes_exhaustive_witness :
  "pages/about"
    ∈ diff (@chunkNames_of (fixture 100) (compilation (pass_with_about "h2"))) ["pages/about"]
  ∨ "pages/about"
      ∈ diff ["pages/about"] (@chunkNames_of (fixture 100) (compilation (pass_with_about "h2")))
  ∨ "pages/about"
      ∈ (trackPageChanges {["pages/about" := "h1"]} [] (compilation (pass_with_about "h2"))).2
  ∨ ∃ hash, ({["pages/about" := "h1"]} : gmap string string) !! "pages/about" = Some hash
            ∧ ("pages/about", Some hash) ∈ page_hashes (compilation (pass_with_about "h2")).
Proof.
  apply (@page_changes_exhaustive (fixture 100)).
  - change (NoDup ["pages/about"]). apply NoDup_singleton.
  - intros k. rewrite list_elem_of_singleton. split.
    + intros [hash [-> _]%lookup_singleton_Some]. reflexivity.
    + intros ->. rewrite lookup_singleton_eq. by eexists.
  - intros k. reflexivity.
  - intros k [_ Hh]%lookup_singleton_Some. discriminate.
  - left. repeat constructor.
Defined.

(** ** Concrete runs of the further properties *)

(** [findEntryModule_sound] at the chain of [about_modules]. *)
Lemma findEntryModule_sound_witness :
  mod_issuer (about_modules 2) = None
  ∧ @findEntryModule (fixture 100) 100 about_modules 0 = Resolved 2.
Proof.
  destruct (@findEntryModule_sound (fixture 100) about_modules 3 0 2 eq_refl)
    as (Hroot & _ & Hmore).
  split; [exact Hroot|]. apply Hmore. lia.
Defined.

(** [trackPageChanges_same_hashes] at a rebuild of [/about] with the hash
    on record. *)
Lemma trackPageChanges_same_hashes_witness :
  trackPageChanges {["pages/about" := "h1"]} [] (compilation (pass_with_about "h1"))
  = ({["pages/about" := "h1"]}, []).
Proof.
  apply trackPageChanges_same_hashes.
  intros k hash Hin. change (page_hashes (compilation (pass_with_about "h1")))
    with [("pages/about", Some "h1")] in Hin.
  apply list_elem_of_singleton in Hin. injection Hin as -> ->.
  apply lookup_singleton_eq.
Defined.

(** [trackPageChanges_replay] at the first pass that has [/about]. *)
Lemma trackPageChanges_replay_witness :
  trackPageChanges
    (trackPageChanges ∅ [] (compilation (pass_with_about "h1"))).1
    (trackPageChanges ∅ [] (compilation (pass_with_about "h1"))).2
    (compilation (pass_with_about "h1"))
  = trackPageChanges ∅ [] (compilation (pass_with_about "h1")).
Proof.
  apply trackPageChanges_replay.
  change (NoDup ["pages/about"]). apply NoDup_singleton.
Defined.

(** [client_failure_fails_bundle_requests] at a request for the bundle of
    [/about] after the client compiler failed: on a missing file, and on
    another failure. *)
Lemma client_failure_fails_bundle_requests_witness :
  @handlePageBundleRequest (fixture 100) (client_failed fresh file_missing)
    (Some "/_next/static/chunks/pages/about.js")
  = ([ SetHeader "Cache-Control" "no-cache, no-store, max-age=0, must-revalidate";
       SetStatusCode 404;
       ResEnd (Some "404 - Not Found") ],
     Resolved true)
  ∧ @handlePageBundleRequest (fixture 100) (client_failed fresh compiler_crash)
      (Some "/_next/static/chunks/pages/about.js")
    = ([ SetHeader "Cache-Control" "no-cache, no-store, max-age=0, must-revalidate";
         ConsoleError (Some "Error: compiler crashed");
         SetStatusCode 500;
         ResEnd (Some "500 - Internal Error") ],
       Resolved true).
Proof.
  destruct (@client_failure_fails_bundle_requests (fixture 100) fresh file_missing
              (Some "/_next/static/chunks/pages/about.js") ["about"] ["about"]
              eq_refl eq_refl eq_refl) as (Hfinished & Hmissing & _).
  destruct (@client_failure_fails_bundle_requests (fixture 100) fresh compiler_crash
              (Some "/_next/static/chunks/pages/about.js") ["about"] ["about"]
              eq_refl eq_refl eq_refl) as (Hfinished' & _ & Hlogged & _).
  assert (err_code (@as_error (fixture 100) compiler_crash) ≠ Some "ENOENT") as Hne
    by discriminate.
  split; apply injective_projections.
  - exact (Hmissing eq_refl).
  - exact Hfinished.
  - exact (Hlogged Hne).
  - exact Hfinished'.
Defined.

(** [server_failure_fails_bundle_requests] at the same request after the
    server compiler failed. *)
Lemma server_failure_fails_bundle_requests_witness :
  @handlePageBundleRequest (fixture 100)
    (server_failed fresh (compile_error "server failure" 0))
    (Some "/_next/static/chunks/pages/about.js")
  = ([ SetHeader "Cache-Control" "no-cache, no-store, max-age=0, must-revalidate";
       SetStatusCode 500;
       ResEnd (Some "500 - Internal Error") ],
     Resolved true).
Proof.
  destruct (@server_failure_fails_bundle_requests (fixture 100) fresh
              (compile_error "server failure" 0)
              (Some "/_next/static/chunks/pages/about.js") ["about"] ["about"] []
              eq_refl eq_refl eq_refl eq_refl eq_refl) as (_ & Hgate & _).
  rewrite Hgate. reflexivity.
Defined.

(** [any_client_error_fails_every_page] at a request for [/a] while the
    client bundle of [/b] fails. *)
Lemma any_client_error_fails_every_page_witness :
  ∃ error errors,
    @getCompilationErrors (fixture 100) client_b_server_a "/a" = Resolved (error :: errors).
Proof.
  assert (@attribution_resolves (fixture 100)
            (compilation (failing_stats (compile_error "client error in /b" 1)))) as Hres.
  { intros error m Hin Hm. apply list_elem_of_singleton in Hin. subst error.
    injection Hm as <-. exists 0, 1. split; [by apply chain_root | simpl; lia]. }
  assert (comp_errors (compilation (failing_stats (compile_error "client error in /b" 1)))
          ≠ []) as Hne by discriminate.
  destruct (@any_client_error_fails_every_page (fixture 100) client_b_server_a
              (failing_stats (compile_error "client error in /b" 1))
              eq_refl eq_refl eq_refl eq_refl Hne Hres) as (Hall & _).
  destruct (Hall "/a") as (error & errors & Hget & _).
  by exists error, errors.
Defined.

(** [pass_settles_entries] at the server entry of [/about] with the web
    server runtime on: the [server] configuration leaves it, the
    [server-web] configuration builds it. *)
Lemma pass_settles_entries_witness :
  (@run_entry_functions (fixture 100) with_web_server_runtime
     (zip (getWebpackConfig with_web_server_runtime (configuration "client")
             (configuration "server") (configuration "server-web"))
        [∅; ∅; ∅])
     {["server/about" := registry_entry "pages/about" "/app/pages/about.js"]} ∅).1.1
  !! "server/about"
  = Some (with_status (registry_entry "pages/about" "/app/pages/about.js") BUILDING).
Proof.
  assert (({["server/about" := registry_entry "pages/about" "/app/pages/about.js"]}
           : gmap string EntryData) !! "server/about"
          = Some (registry_entry "pages/about" "/app/pages/about.js")) as Hk
    by apply lookup_singleton_eq.
  destruct (@pass_settles_entries (fixture 100) with_web_server_runtime
              (configuration "client") (configuration "server") (configuration "server-web")
              [∅; ∅; ∅]
              {["server/about" := registry_entry "pages/about" "/app/pages/about.js"]} ∅
              "server/about" (registry_entry "pages/about" "/app/pages/about.js")
              eq_refl eq_refl eq_refl eq_refl Hk (or_intror eq_refl)) as [_ Hbuilt].
  exact (Hbuilt eq_refl eq_refl).
Defined.

